(** * scripts/optimize-data.py: a shallow embedding and its properties

    The script loads one CSV file, derives a slim "table" frame and a richer
    "detail" frame from it, writes both as CSV, gzip and (best effort)
    Parquet, and finally writes a JSON manifest.

    The embedding follows the script statement by statement.  Data frames
    are row-major: an ordered list of rows, each carrying its index label
    (whatever pandas made the index of) and a dictionary from column name
    to value.  The file system and the
    standard output are threaded through a state-and-exception monad.  The
    third-party libraries the script calls (the CSV parser and writer of
    pandas, numpy's seeded generator, gzip, the Parquet engine, the JSON
    encoder, the iteration order of a Python set) are the fields of the
    class [Libs], together with the few facts about them that the proofs
    use. *)

From stdpp Require Import gmap strings list fin_maps pretty.
From Stdlib Require Import Strings.Byte.

Local Open Scope string_scope.
Local Open Scope list_scope.
Local Open Scope Z_scope.

(** ** Python values *)

(** A character of a [string] stands for one code point of a Python [str]. *)

Abbreviation bytes := (list byte).
Abbreviation path := (list string).

(** A value held in a frame or labelling a row.  A float is kept by its
    [repr]; so is a tuple, the label of a row under a MultiIndex. *)
#[warnings="-register-all"]
Inductive cell :=
| Str (s : string)
| Int (z : Z)
| Float (repr : string)
| Bool (b : bool)
| NaN
| Tuple (items : list cell) (repr : string).

(** [str(v)], as [Series.astype(str)] applies it to each value. *)
Definition py_str (v : cell) : string :=
  match v with
  | Str s => s
  | Int z => pretty z
  | Float r => r
  | Bool true => "True"
  | Bool false => "False"
  | NaN => "nan"
  | Tuple _ r => r
  end.

(** [s[:k]] *)
Fixpoint str_slice (k : nat) (s : string) : string :=
  match k, s with
  | S k', String c s' => String c (str_slice k' s')
  | _, _ => EmptyString
  end.

(** The exception classes that occur; all derive from [Exception]. *)
Inductive exn :=
| FileNotFoundError
| IsADirectoryError
| NotADirectoryError
| FileExistsError
| ValueError
| ZeroDivisionError
| ImportError
| ModuleNotFoundError
| EmptyDataError
| ParserError
| LibraryError (name : string).

(** [isinstance(e, ImportError)]: [ModuleNotFoundError] is a subclass. *)
Definition is_ImportError (e : exn) : bool :=
  match e with
  | ImportError | ModuleNotFoundError => true
  | _ => false
  end.

Inductive result (A : Type) :=
| Ok (a : A)
| Raise (e : exn).
Arguments Ok {A} a.
Arguments Raise {A} e.

#[warnings="-register-all"]
Inductive json :=
| JNull
| JBool (b : bool)
| JInt (z : Z)
| JFloat (repr : string)
| JStr (s : string)
| JList (l : list json)
| JObject (kvs : list (string * json)).

(** ** Data frames *)

Abbreviation row := (gmap string cell).

Record DataFrame := {
  columns : list string;
  rows : list (cell * row)
}.

(** [len(df)] *)
Definition len (df : DataFrame) : nat := length (rows df).

(** [df.index], as the values assigned to a column *)
Definition index (df : DataFrame) : list cell := (rows df).*1.

(** [df[cols].copy()], for [cols] taken from [df.columns] *)
Definition getitem (df : DataFrame) (cols : list string) : DataFrame :=
  {| columns := cols;
     rows := (λ lr, (lr.1, filter (λ kv, kv.1 ∈ cols) lr.2)) <$> rows df |}.

(** [df[c]], the values of one column; a missing value reads as NaN *)
Definition series (df : DataFrame) (c : string) : list cell :=
  (λ lr, default NaN (lr.2 !! c)) <$> rows df.

(** [df[c] = vals], positional.  pandas raises when the lengths differ;
    every use below assigns as many values as there are rows
    (see [length_index], [length_series]). *)
Definition setitem (df : DataFrame) (c : string) (vals : list cell) : DataFrame :=
  {| columns := if decide (c ∈ columns df) then columns df else columns df ++ [c];
     rows := zip_with (λ lr v, (lr.1, <[c:=v]> lr.2)) (rows df) vals |}.

(** [s.astype(str).str[:k]] *)
Definition astype_str_slice (k : nat) (s : list cell) : list cell :=
  (λ v, Str (str_slice k (py_str v))) <$> s.

(** [df.to_csv(..., index=False)] hands the csv writer one record for the
    header and one per row; NaN is written as the empty field. *)
Definition csv_field (v : option cell) : string :=
  match v with
  | None | Some NaN => ""
  | Some v => py_str v
  end.

Definition csv_records (df : DataFrame) : list (list string) :=
  columns df :: ((λ lr, (λ c, csv_field (lr.2 !! c)) <$> columns df) <$> rows df).

(** [Series.tolist()] into JSON values *)
Fixpoint json_of_cell (v : cell) : json :=
  match v with
  | Str s => JStr s
  | Int z => JInt z
  | Float r => JFloat r
  | Bool b => JBool b
  | NaN => JFloat "NaN"
  | Tuple items _ => JList (json_of_cell <$> items)
  end.

(** ** The libraries *)

Class Libs := {
  (** [pd.read_csv] on the bytes of a file: the frame, with the index
      pandas gives it *)
  read_csv_parse : bytes → result DataFrame;
  (** [np.random.RandomState(seed).permutation(n)] *)
  RandomState_permutation : Z → nat → list nat;
  (** the csv writer behind [to_csv] *)
  csv_text : list (list string) → bytes;
  gzip_compress : bytes → bytes;
  gzip_decompress : bytes → option bytes;
  (** the bytes [to_parquet] would write, or the exception it raises *)
  parquet_encode : DataFrame → result bytes;
  (** [json.dumps(_, indent=2)], encoded *)
  json_text : json → bytes;
  (** the order in which [list(set(l))] enumerates *)
  set_iter : list string → list string;

  read_csv_empty : read_csv_parse [] = Raise EmptyDataError;
  permutation_perm : ∀ seed n, RandomState_permutation seed n ≡ₚ seq 0 n;
  csv_text_nonempty : ∀ r rs, csv_text (r :: rs) ≠ [];
  gzip_roundtrip : ∀ b, gzip_decompress (gzip_compress b) = Some b;
  gzip_nonempty : ∀ b, gzip_compress b ≠ [];
  parquet_nonempty : ∀ df, parquet_encode df ≠ Ok [];
  json_text_nonempty : ∀ j, json_text j ≠ [];
  set_iter_perm : ∀ l, set_iter l ≡ₚ remove_dups l
}.

(** The frame [pd.read_csv] makes of a file none of whose data rows has
    more fields than the header: it gets the default RangeIndex, each row
    labelled by its position.  (With surplus fields pandas takes the
    leading ones as the index instead.) *)
Definition frame_of (cols : list string) (rs : list row) : DataFrame :=
  {| columns := cols; rows := imap (λ i r, (Int (Z.of_nat i), r)) rs |}.

(** [df.sample(n=n, random_state=seed)]: without replacement pandas takes
    the rows at [RandomState(seed).choice(len(df), size=n, replace=False)],
    which numpy computes as [permutation(len(df))[:n]]. *)
Definition sample `{Libs} (df : DataFrame) (n : Z) (random_state : Z) : result DataFrame :=
  if decide (n < 0) then Raise ValueError
  else if decide (Z.of_nat (len df) < n) then Raise ValueError
  else Ok {| columns := columns df;
             rows := omap (λ i, rows df !! i)
                       (take (Z.to_nat n) (RandomState_permutation random_state (len df))) |}.

(** ** The two projections *)

Definition TABLE_COLUMNS : list string :=
  [ "prompt"; "model"; "type"; "impact"; "unexpected_behavior";
    "property_description_coarse_cluster_label";
    "property_description_fine_cluster_label";
    "property_description"; "category"; "evidence" ].

Definition DETAIL_COLUMNS : list string :=
  [ "model_1_response"; "model_2_response"; "model_1_name"; "model_2_name";
    "differences"; "parsed_differences"; "parse_error"; "reason";
    "property_description_coarse_cluster_id";
    "property_description_fine_cluster_id" ].

Definition available_table_cols (df : DataFrame) : list string :=
  filter (λ col, col ∈ columns df) TABLE_COLUMNS.

(** Lines 67-76: the table frame. *)
Definition table_df (df : DataFrame) : DataFrame :=
  let table_df := getitem df (available_table_cols df) in
  let table_df := setitem table_df "row_id" (index df) in
  let table_df :=
    if decide ("property_description" ∈ columns table_df)
    then setitem table_df "property_description"
           (astype_str_slice 500 (series table_df "property_description"))
    else table_df in
  if decide ("evidence" ∈ columns table_df)
  then setitem table_df "evidence"
         (astype_str_slice 300 (series table_df "evidence"))
  else table_df.

Definition all_detail_cols (df : DataFrame) : list string :=
  available_table_cols df ++ filter (λ col, col ∈ columns df) DETAIL_COLUMNS.

(** Lines 86-93: the detail frame (the warning of line 90 apart). *)
Definition detail_sampled `{Libs} (df : DataFrame) (max_detail_rows : Z) : result DataFrame :=
  let detail_df := getitem df (all_detail_cols df) in
  if decide (max_detail_rows < Z.of_nat (len detail_df))
  then sample detail_df max_detail_rows 42
  else Ok detail_df.

Definition detail_df `{Libs} (df : DataFrame) (max_detail_rows : Z) : result DataFrame :=
  match detail_sampled df max_detail_rows with
  | Ok detail_df => Ok (setitem detail_df "row_id" (index detail_df))
  | Raise e => Raise e
  end.

(** Lines 126-135. *)
Definition index_mapping `{Libs} (df table_df detail_df : DataFrame) : json :=
  JObject
    [ ("total_rows", JInt (Z.of_nat (len df)));
      ("table_rows", JInt (Z.of_nat (len table_df)));
      ("detail_rows", JInt (Z.of_nat (len detail_df)));
      ("available_columns",
        JObject [ ("table", JList (JStr <$> available_table_cols df));
                  ("detail", JList (JStr <$> set_iter (all_detail_cols df))) ]);
      ("row_id_mapping",
        if decide (len detail_df < len df)%nat
        then JList (json_of_cell <$> series detail_df "row_id")
        else JNull) ].

(** ** The file system, the standard output and the monad *)

Inductive node :=
| File (content : bytes)
| Dir.

(** One constructor per [print] of the script; sizes are byte counts. *)
Inductive message :=
| MsgReading (input_file : path)
| MsgLoaded (nrows ncols : nat)
| MsgCreatingTable
| MsgSavedTable (table_file : path) (nrows ncols : nat)
| MsgCreatingDetail
| MsgSampling (nrows : nat) (max_detail_rows : Z)
| MsgSavedDetail (detail_file : path) (nrows : nat)
| MsgCreatingCompressed
| MsgCreatingParquet
| MsgParquetCreated
| MsgParquetSkipped
| MsgCreatingIndex
| MsgResults
| MsgOriginalSize (original_size : nat)
| MsgTableSize (table_size original_size : nat)
| MsgTableCompressed (table_gz_size original_size : nat)
| MsgImprovement (original_size table_gz_size : nat)
| MsgInputNotFound (input_file : path)
| MsgComplete (output_dir : path)
| MsgNextSteps
| MsgError (e : exn).

Record world := {
  fs : gmap path node;
  stdout : list message
}.

Definition M (A : Type) : Type := world → result A * world.

Definition raise {A} (e : exn) : M A := λ w, (Raise e, w).

#[global] Instance M_ret : MRet M := λ A a w, (Ok a, w).

#[global] Instance M_bind : MBind M := λ A B k m w,
  match m w with
  | (Ok a, w') => k a w'
  | (Raise e, w') => (Raise e, w')
  end.

Definition lift {A} (r : result A) : M A := λ w, (r, w).

Definition print (m : message) : M unit :=
  λ w, (Ok (), {| fs := fs w; stdout := stdout w ++ [m] |}).

(** A path is its list of components below the working directory, which
    is [[]] and always a directory. *)
Definition node_at (t : gmap path node) (p : path) : option node :=
  match p with
  | [] => Some Dir
  | _ => t !! p
  end.

Definition parent (p : path) : path := take (length p - 1) p.

(** [p / name] *)
Definition joinpath (p : path) (name : string) : path := p ++ [name].

Definition with_fs (t : gmap path node) (w : world) : world :=
  {| fs := t; stdout := stdout w |}.

(** [Path(p).exists()] *)
Definition path_exists (p : path) : M bool :=
  λ w, (Ok (bool_decide (is_Some (node_at (fs w) p))), w).

(** What [open] or [mkdir] raises for a path that does not exist. *)
Definition missing_error (t : gmap path node) (p : path) : exn :=
  match node_at t (parent p) with
  | Some (File _) => NotADirectoryError
  | _ => FileNotFoundError
  end.

(** [open(p, 'rb').read()] *)
Definition read_bytes (p : path) : M bytes :=
  λ w, match node_at (fs w) p with
       | Some (File b) => (Ok b, w)
       | Some Dir => (Raise IsADirectoryError, w)
       | None => (Raise (missing_error (fs w) p), w)
       end.

(** Creating or truncating [p] and writing [b] to it. *)
Definition write_bytes (p : path) (b : bytes) : M unit :=
  λ w, match node_at (fs w) p, node_at (fs w) (parent p) with
       | Some Dir, _ => (Raise IsADirectoryError, w)
       | _, Some Dir => (Ok (), with_fs (<[p := File b]> (fs w)) w)
       | _, _ => (Raise (missing_error (fs w) p), w)
       end.

(** [Path(p).mkdir(exist_ok=True)] *)
Definition mkdir_exist_ok (p : path) : M unit :=
  λ w, match node_at (fs w) p, node_at (fs w) (parent p) with
       | Some Dir, _ => (Ok (), w)
       | Some (File _), _ => (Raise FileExistsError, w)
       | None, Some Dir => (Ok (), with_fs (<[p := Dir]> (fs w)) w)
       | None, _ => (Raise (missing_error (fs w) p), w)
       end.

(** [Path(p).stat().st_size]; the script only asks for regular files,
    a directory reports one block. *)
Definition st_size (p : path) : M nat :=
  λ w, match node_at (fs w) p with
       | Some (File b) => (Ok (length b), w)
       | Some Dir => (Ok 4096%nat, w)
       | None => (Raise (missing_error (fs w) p), w)
       end.

(** The lines a binary file object iterates over: each ends after its
    newline byte, the last one possibly without. *)
Fixpoint readlines (b : bytes) : list bytes :=
  match b with
  | [] => []
  | c :: b' =>
      if Byte.eqb c x0a then [c] :: readlines b'
      else match readlines b' with
           | [] => [[c]]
           | l :: ls => (c :: l) :: ls
           end
  end.

(** Float division [a / b] of two sizes, for its exception only. *)
Definition truediv (a b : nat) : M unit :=
  match b with
  | O => raise ZeroDivisionError
  | _ => mret ()
  end.

(** ** The script *)

(** [df.to_csv(p, index=False)] *)
Definition to_csv `{Libs} (df : DataFrame) (p : path) : M unit :=
  write_bytes p (csv_text (csv_records df)).

(** [with open(src, 'rb') as f_in: with gzip.open(dst, 'wb') as f_out:
    f_out.writelines(f_in)] *)
Definition gzip_file `{Libs} (src dst : path) : M unit :=
  data ← read_bytes src;
  write_bytes dst (gzip_compress (concat (readlines data))).

(** [df.to_parquet(p, index=False)] *)
Definition to_parquet `{Libs} (df : DataFrame) (p : path) : M unit :=
  b ← lift (parquet_encode df);
  write_bytes p b.

(** [try: body except ImportError: handler] *)
Definition try_except_ImportError {A} (body handler : M A) : M A :=
  λ w, match body w with
       | (Raise e, w') => if is_ImportError e then handler w' else (Raise e, w')
       | r => r
       end.

(** [pd.read_csv(p)] *)
Definition read_csv `{Libs} (p : path) : M DataFrame :=
  data ← read_bytes p;
  lift (read_csv_parse data).

(** [json.dump(j, open(p, 'w'), indent=2)] *)
Definition json_dump `{Libs} (j : json) (p : path) : M unit :=
  write_bytes p (json_text j).

Record outputs := {
  table_file : path;
  detail_file : path;
  table_compressed : path;
  detail_compressed : path;
  index_file : path
}.

Definition optimize_csv_data `{Libs}
    (input_file output_dir : path) (max_detail_rows : Z) : M outputs :=
  print (MsgReading input_file);;
  df ← read_csv input_file;
  print (MsgLoaded (len df) (length (columns df)));;
  let output_path := output_dir in
  mkdir_exist_ok output_path;;
  (* 1. table data *)
  print MsgCreatingTable;;
  let table_df := table_df df in
  let table_file := joinpath output_path "table_data.csv" in
  to_csv table_df table_file;;
  print (MsgSavedTable table_file (len table_df) (length (columns table_df)));;
  (* 2. detail data *)
  print MsgCreatingDetail;;
  let detail_df := getitem df (all_detail_cols df) in
  detail_df ←
    (if decide (max_detail_rows < Z.of_nat (len detail_df))
     then print (MsgSampling (len detail_df) max_detail_rows);;
          lift (sample detail_df max_detail_rows 42)
     else mret detail_df);
  let detail_df := setitem detail_df "row_id" (index detail_df) in
  let detail_file := joinpath output_path "detail_data.csv" in
  to_csv detail_df detail_file;;
  print (MsgSavedDetail detail_file (len detail_df));;
  (* 3. compressed versions *)
  print MsgCreatingCompressed;;
  let table_gz := joinpath output_path "table_data.csv.gz" in
  gzip_file table_file table_gz;;
  let detail_gz := joinpath output_path "detail_data.csv.gz" in
  gzip_file detail_file detail_gz;;
  (* 4. Parquet versions *)
  try_except_ImportError
    (print MsgCreatingParquet;;
     to_parquet table_df (joinpath output_path "table_data.parquet");;
     to_parquet detail_df (joinpath output_path "detail_data.parquet");;
     print MsgParquetCreated)
    (print MsgParquetSkipped);;
  (* 5. index mapping *)
  print MsgCreatingIndex;;
  let index_mapping := index_mapping df table_df detail_df in
  let index_file := joinpath output_path "data_index.json" in
  json_dump index_mapping index_file;;
  (* 6. size savings *)
  original_size ← st_size input_file;
  table_size ← st_size table_file;
  table_gz_size ← st_size table_gz;
  print MsgResults;;
  print (MsgOriginalSize original_size);;
  truediv table_size original_size;;
  print (MsgTableSize table_size original_size);;
  truediv table_gz_size original_size;;
  print (MsgTableCompressed table_gz_size original_size);;
  truediv original_size table_gz_size;;
  print (MsgImprovement original_size table_gz_size);;
  mret {| table_file := table_file;
          detail_file := detail_file;
          table_compressed := table_gz;
          detail_compressed := detail_gz;
          index_file := index_file |}.

(** The parsed command line. *)
Record args := {
  input_file : path;
  output_dir : path;
  max_detail_rows : Z
}.

(** [main()]: the exit code and the world it leaves. *)
Definition main `{Libs} (a : args) : world → Z * world :=
  λ w, match path_exists (input_file a) w with
       | (Ok false, w) =>
           (1, (print (MsgInputNotFound (input_file a)) w).2)
       | (_, w) =>
           match optimize_csv_data (input_file a) (output_dir a) (max_detail_rows a) w with
           | (Ok _, w') =>
               (0, ((print (MsgComplete (output_dir a));; print MsgNextSteps) w').2)
           | (Raise e, w') =>
               (1, (print (MsgError e) w').2)
           end
       end.

(** ** A small concrete library instance

    Used to run the script on examples: the parser returns a given frame
    for every non-empty file, the generator enumerates backwards, a set is
    enumerated in reverse order of insertion, and the encoders are naive. *)

Module Demo.

Definition csv_line (r : list string) : bytes :=
  String.list_byte_of_string (String.concat "," r) ++ [x0a].

Definition csv_writer (recs : list (list string)) : bytes :=
  concat (csv_line <$> recs).

Definition deflate (b : bytes) : bytes := x1f :: x8b :: b.

Definition inflate (z : bytes) : option bytes :=
  match z with
  | x1f :: x8b :: b => Some b
  | _ => None
  end.

Fixpoint join (sep : byte) (parts : list bytes) : bytes :=
  match parts with
  | [] => []
  | [b] => b
  | b :: rest => b ++ sep :: join sep rest
  end.

Fixpoint json_bytes (j : json) : bytes :=
  match j with
  | JNull => String.list_byte_of_string "null"
  | JBool true => String.list_byte_of_string "true"
  | JBool false => String.list_byte_of_string "false"
  | JInt z => String.list_byte_of_string (pretty z)
  | JFloat r => String.list_byte_of_string r
  | JStr s => x22 :: String.list_byte_of_string s ++ [x22]
  | JList l => x5b :: join x2c (json_bytes <$> l) ++ [x5d]
  | JObject kvs =>
      x7b :: join x2c ((λ kv, x22 :: String.list_byte_of_string kv.1 ++ [x22; x3a]
                                ++ json_bytes kv.2) <$> kvs) ++ [x7d]
  end.

Definition json_writer (j : json) : bytes := json_bytes j ++ [x0a].

Definition parser (df : DataFrame) (b : bytes) : result DataFrame :=
  match b with
  | [] => Raise EmptyDataError
  | _ => Ok df
  end.

Definition parquet (pq : option exn) (df : DataFrame) : result bytes :=
  match pq with
  | Some e => Raise e
  | None => Ok (String.list_byte_of_string "PAR1")
  end.

Lemma csv_writer_nonempty r rs : csv_writer (r :: rs) ≠ [].
Proof.
  unfold csv_writer, csv_line. simpl.
  destruct (String.list_byte_of_string (String.concat "," r)); discriminate.
Qed.

Lemma json_writer_nonempty j : json_writer j ≠ [].
Proof. unfold json_writer. destruct (json_bytes j); discriminate. Qed.

Lemma parquet_never_empty pq df : parquet pq df ≠ Ok [].
Proof. destruct pq; discriminate. Qed.

Lemma reverse_seq_perm (seed : Z) n : reverse (seq 0 n) ≡ₚ seq 0 n.
Proof. apply reverse_Permutation. Qed.

Lemma reverse_dups_perm (l : list string) : reverse (remove_dups l) ≡ₚ remove_dups l.
Proof. apply reverse_Permutation. Qed.

(** The libraries when the input parses to [df] and the Parquet engine
    raises [pq], if any. *)
Definition libs (df : DataFrame) (pq : option exn) : Libs := {|
  read_csv_parse := parser df;
  RandomState_permutation := λ _ n, reverse (seq 0 n);
  csv_text := csv_writer;
  gzip_compress := deflate;
  gzip_decompress := inflate;
  parquet_encode := parquet pq;
  json_text := json_writer;
  set_iter := λ l, reverse (remove_dups l);
  read_csv_empty := eq_refl;
  permutation_perm := reverse_seq_perm;
  csv_text_nonempty := csv_writer_nonempty;
  gzip_roundtrip := λ b, eq_refl;
  gzip_nonempty := λ b, ltac:(discriminate);
  parquet_nonempty := parquet_never_empty pq;
  json_text_nonempty := json_writer_nonempty;
  set_iter_perm := reverse_dups_perm
|}.

(** The same libraries in a process whose sets enumerate in insertion
    order. *)
Definition libs_insertion_order (df : DataFrame) (pq : option exn) : Libs := {|
  read_csv_parse := parser df;
  RandomState_permutation := λ _ n, reverse (seq 0 n);
  csv_text := csv_writer;
  gzip_compress := deflate;
  gzip_decompress := inflate;
  parquet_encode := parquet pq;
  json_text := json_writer;
  set_iter := remove_dups;
  read_csv_empty := eq_refl;
  permutation_perm := reverse_seq_perm;
  csv_text_nonempty := csv_writer_nonempty;
  gzip_roundtrip := λ b, eq_refl;
  gzip_nonempty := λ b, ltac:(discriminate);
  parquet_nonempty := parquet_never_empty pq;
  json_text_nonempty := json_writer_nonempty;
  set_iter_perm := λ l, reflexivity (remove_dups l)
|}.

End Demo.

(** ** Frames: lengths and row-wise descriptions *)

Lemma str_slice_length k s : (String.length (str_slice k s) ≤ k)%nat.
Proof.
  revert s. induction k as [|k IH]; intros [|c s]; simpl; try lia.
  specialize (IH s). lia.
Qed.

Lemma zip_with_fmap_both {A B C D} (f : B → C → D) (h : A → B) (g : A → C) (l : list A) :
  zip_with f (h <$> l) (g <$> l) = (λ x, f (h x) (g x)) <$> l.
Proof. induction l as [|x l IH]; csimpl; [done | by f_equal]. Qed.

Lemma length_index df : length (index df) = len df.
Proof. unfold index, len. by rewrite length_fmap. Qed.

Lemma length_series df c : length (series df c) = len df.
Proof. unfold series, len. by rewrite length_fmap. Qed.

Lemma len_getitem df cols : len (getitem df cols) = len df.
Proof. unfold len. simpl. by rewrite length_fmap. Qed.

Lemma len_setitem df c vals :
  length vals = len df → len (setitem df c vals) = len df.
Proof. unfold len. simpl. intros E. rewrite length_zip_with. lia. Qed.

Lemma len_frame_of cols rs : len (frame_of cols rs) = length rs.
Proof. unfold len. simpl. by rewrite length_imap. Qed.


Lemma row_id_not_table : "row_id" ∉ TABLE_COLUMNS.
Proof. compute_done. Qed.

Lemma row_id_not_detail : "row_id" ∉ DETAIL_COLUMNS.
Proof. compute_done. Qed.

Lemma row_id_not_available df : "row_id" ∉ available_table_cols df.
Proof.
  unfold available_table_cols. rewrite list_elem_of_filter.
  intros [_ ?]. by apply row_id_not_table.
Qed.

Lemma row_id_not_all_detail df : "row_id" ∉ all_detail_cols df.
Proof.
  unfold all_detail_cols. rewrite elem_of_app, list_elem_of_filter.
  intros [?|[_ ?]]; [by eapply row_id_not_available | by apply row_id_not_detail].
Qed.

(** The row of the table frame made from one row of the data. *)
Definition table_row (df : DataFrame) (lr : cell * row) : cell * row :=
  let r := <["row_id" := lr.1]>
             (filter (λ kv, kv.1 ∈ available_table_cols df) lr.2) in
  let r := if decide ("property_description" ∈ available_table_cols df)
           then <["property_description" :=
                    Str (str_slice 500 (py_str (default NaN (r !! "property_description"))))]> r
           else r in
  let r := if decide ("evidence" ∈ available_table_cols df)
           then <["evidence" := Str (str_slice 300 (py_str (default NaN (r !! "evidence"))))]> r
           else r in
  (lr.1, r).

Lemma setitem_series_rows df c (f : cell → cell) :
  rows (setitem df c (f <$> series df c))
  = (λ lr, (lr.1, <[c := f (default NaN (lr.2 !! c))]> lr.2)) <$> rows df.
Proof.
  unfold series. simpl. rewrite <- list_fmap_compose.
  rewrite <- (list_fmap_id (rows df)) at 1.
  by rewrite zip_with_fmap_both.
Qed.

Lemma setitem_series_columns df c vals :
  c ∈ columns df → columns (setitem df c vals) = columns df.
Proof. intros Hc. simpl. by rewrite decide_True. Qed.

Lemma table_df_spec df :
  columns (table_df df) = available_table_cols df ++ ["row_id"] ∧
  rows (table_df df) = table_row df <$> rows df.
Proof.
  unfold table_df.
  set (t0 := setitem (getitem df (available_table_cols df)) "row_id" (index df)).
  assert (Hc0 : columns t0 = available_table_cols df ++ ["row_id"]).
  { subst t0. simpl. rewrite decide_False; [done | apply row_id_not_available]. }
  assert (Hr0 : rows t0 = (λ lr, (lr.1, <["row_id" := lr.1]>
             (filter (λ kv, kv.1 ∈ available_table_cols df) lr.2))) <$> rows df).
  { subst t0. unfold index. simpl. by rewrite zip_with_fmap_both. }
  assert (Hin : ∀ c, c ≠ "row_id" →
            (c ∈ columns t0 ↔ c ∈ available_table_cols df)).
  { intros c Hne. rewrite Hc0, elem_of_app, list_elem_of_singleton. tauto. }
  set (t1 := if decide ("property_description" ∈ columns t0) then _ else t0).
  assert (Hc1 : columns t1 = columns t0).
  { subst t1. case_decide; [by apply setitem_series_columns | done]. }
  unfold astype_str_slice.
  split.
  - case_decide as He; [rewrite setitem_series_columns by done|]; by rewrite Hc1.
  - assert (Hr1 : rows t1 = (λ lr, (lr.1,
        if decide ("property_description" ∈ available_table_cols df)
        then <["property_description" :=
                 Str (str_slice 500 (py_str (default NaN (lr.2 !! "property_description"))))]> lr.2
        else lr.2)) <$> rows t0).
    { subst t1. unfold astype_str_slice.
      destruct (decide ("property_description" ∈ columns t0)) as [Hp|Hp];
        rewrite Hin in Hp by done.
      - rewrite setitem_series_rows. apply list_fmap_ext. intros _ lr _.
        by rewrite decide_True.
      - rewrite <- (list_fmap_id (rows t0)) at 1. apply list_fmap_ext.
        intros _ [l r] _. simpl. by rewrite decide_False. }
    transitivity ((λ lr : cell * row, (lr.1,
        if decide ("evidence" ∈ available_table_cols df)
        then <["evidence" := Str (str_slice 300 (py_str (default NaN (lr.2 !! "evidence"))))]> lr.2
        else lr.2)) <$> rows t1).
    + destruct (decide ("evidence" ∈ columns t1)) as [Hp|Hp];
        rewrite Hc1, Hin in Hp by done.
      * rewrite setitem_series_rows. apply list_fmap_ext. intros _ lr _.
        by rewrite decide_True.
      * rewrite <- (list_fmap_id (rows t1)) at 1. apply list_fmap_ext.
        intros _ [l r] _. simpl. by rewrite decide_False.
    + rewrite Hr1, Hr0, <- !list_fmap_compose. apply list_fmap_ext.
      intros _ [l r] _. unfold table_row. simpl. done.
Qed.

(** The rows of the data that the detail frame keeps, in its order. *)
Definition kept_rows `{Libs} (df : DataFrame) (max_detail_rows : Z) : list (cell * row) :=
  if decide (max_detail_rows < Z.of_nat (len df))
  then omap (λ i, rows df !! i)
         (take (Z.to_nat max_detail_rows) (RandomState_permutation 42 (len df)))
  else rows df.

(** The row of the detail frame made from one row of the data. *)
Definition detail_row (df : DataFrame) (lr : cell * row) : cell * row :=
  (lr.1, <["row_id" := lr.1]>
           (filter (λ kv, kv.1 ∈ all_detail_cols df) lr.2)).

Lemma omap_lookup_fmap {A B} (h : A → B) (l : list A) (idxs : list nat) :
  omap (λ i, (h <$> l) !! i) idxs = h <$> omap (λ i, l !! i) idxs.
Proof.
  induction idxs as [|i idxs IH]; csimpl; [done|].
  rewrite list_lookup_fmap, IH. by destruct (l !! i).
Qed.

Lemma omap_lookup_length {A} (l : list A) (idxs : list nat) :
  Forall (λ i, i < length l)%nat idxs →
  length (omap (λ i, l !! i) idxs) = length idxs.
Proof.
  induction 1 as [|i idxs Hi _ IH]; csimpl; [done|].
  destruct (lookup_lt_is_Some_2 l i Hi) as [x ->]. simpl. by rewrite IH.
Qed.


Lemma setitem_index_rows df c :
  rows (setitem df c (index df))
  = (λ lr, (lr.1, <[c := lr.1]> lr.2)) <$> rows df.
Proof. unfold index. simpl. by rewrite zip_with_fmap_r, zip_with_diag. Qed.

Section pure.
Context `{Libs}.

Lemma permutation_bound seed n :
  Forall (λ i, i < n)%nat (RandomState_permutation seed n).
Proof.
  rewrite (permutation_perm seed n). apply Forall_forall.
  intros i Hi. apply list_elem_of_In, in_seq in Hi. lia.
Qed.

Lemma permutation_length seed n : length (RandomState_permutation seed n) = n.
Proof. by rewrite (permutation_perm seed n), length_seq. Qed.

Lemma detail_df_raise df cap e :
  detail_df df cap = Raise e ↔ cap < 0 ∧ e = ValueError.
Proof.
  unfold detail_df, detail_sampled, sample. rewrite len_getitem.
  repeat case_decide; (split; [intros [= <-] | intros [? ->]]); done || lia.
Qed.

Lemma detail_df_spec df cap d :
  detail_df df cap = Ok d →
  0 ≤ cap ∧
  columns d = all_detail_cols df ++ ["row_id"] ∧
  rows d = detail_row df <$> kept_rows df cap.
Proof.
  unfold detail_df, detail_sampled, sample, kept_rows. rewrite len_getitem.
  assert (Hcol : ∀ cs, cs = all_detail_cols df →
            (if decide ("row_id" ∈ cs) then cs else cs ++ ["row_id"])
            = all_detail_cols df ++ ["row_id"]).
  { intros cs ->. rewrite decide_False; [done | apply row_id_not_all_detail]. }
  repeat case_decide; intros [= <-]; (split; [lia|]);
    (split; [by apply Hcol|]); rewrite setitem_index_rows; simpl.
  - rewrite omap_lookup_fmap, <- list_fmap_compose.
    apply list_fmap_ext. by intros _ [l r] _.
  - rewrite <- list_fmap_compose. apply list_fmap_ext. by intros _ [l r] _.
Qed.

Lemma detail_df_total df cap : 0 ≤ cap → ∃ d, detail_df df cap = Ok d.
Proof.
  intros Hcap. destruct (detail_df df cap) as [d|e] eqn:E; [by eexists|].
  apply detail_df_raise in E. lia.
Qed.

Lemma kept_rows_length df cap :
  0 ≤ cap →
  length (kept_rows df cap) = if decide (cap < Z.of_nat (len df)) then Z.to_nat cap else len df.
Proof.
  intros Hcap. unfold kept_rows. case_decide; [|done].
  rewrite omap_lookup_length.
  - rewrite length_take, permutation_length. lia.
  - apply Forall_take, permutation_bound.
Qed.


End pure.

(** ** Paths and the file system *)

Lemma joinpath_inj p a b : joinpath p a = joinpath p b → a = b.
Proof. unfold joinpath. intros E%app_inv_head. by injection E. Qed.

Lemma joinpath_ne_self p a : joinpath p a ≠ p.
Proof.
  unfold joinpath. intros E. apply (f_equal length) in E.
  rewrite length_app in E. simpl in E. lia.
Qed.

Lemma joinpath_nonempty p a : joinpath p a ≠ [].
Proof. unfold joinpath. by destruct p. Qed.

Lemma parent_joinpath p a : parent (joinpath p a) = p.
Proof.
  unfold parent, joinpath. rewrite length_app. simpl.
  replace (length p + 1 - 1)%nat with (length p) by lia.
  by rewrite take_app_length.
Qed.

Lemma node_at_joinpath t p a : node_at t (joinpath p a) = t !! joinpath p a.
Proof. unfold joinpath. by destruct p. Qed.

Lemma node_at_insert_ne t p q n : p ≠ q → node_at (<[q := n]> t) p = node_at t p.
Proof. intros Hne. destruct p; [done|]. simpl. by rewrite lookup_insert_ne. Qed.

Lemma node_at_insert_eq t p n : p ≠ [] → node_at (<[p := n]> t) p = Some n.
Proof. intros Hne. destruct p; [done|]. simpl. by rewrite lookup_insert_eq. Qed.

Lemma concat_readlines b : concat (readlines b) = b.
Proof.
  induction b as [|c b IH]; simpl; [done|].
  destruct (Byte.eqb c x0a); simpl; [by rewrite IH|].
  destruct (readlines b) as [|l ls]; simpl in *; by rewrite <- IH.
Qed.

(** ** Stepping through the monad *)

Lemma bind_Ok {A B} (m : M A) (k : A → M B) w a w1 :
  m w = (Ok a, w1) → (m ≫= k) w = k a w1.
Proof. unfold mbind, M_bind. by intros ->. Qed.

Lemma bind_Raise {A B} (m : M A) (k : A → M B) w e w1 :
  m w = (Raise e, w1) → (m ≫= k) w = (Raise e, w1).
Proof. unfold mbind, M_bind. by intros ->. Qed.

Lemma bind_Ok_inv {A B} (m : M A) (k : A → M B) w b w' :
  (m ≫= k) w = (Ok b, w') → ∃ a w1, m w = (Ok a, w1) ∧ k a w1 = (Ok b, w').
Proof.
  unfold mbind, M_bind. destruct (m w) as [[a|e] w1]; [eauto | discriminate].
Qed.

Lemma print_Ok_inv m w u w1 : print m w = (Ok u, w1) → fs w1 = fs w.
Proof. by intros [= _ <-]. Qed.

Lemma mret_Ok_inv {A} (a b : A) w w1 :
  (mret a : M A) w = (Ok b, w1) → a = b ∧ w1 = w.
Proof. by intros [= -> ->]. Qed.

Lemma lift_Ok_inv {A} (r : result A) a w w1 : lift r w = (Ok a, w1) → r = Ok a ∧ w1 = w.
Proof. by intros [= -> ->]. Qed.

Lemma read_bytes_Ok_inv p w b w1 :
  read_bytes p w = (Ok b, w1) → node_at (fs w) p = Some (File b) ∧ w1 = w.
Proof.
  unfold read_bytes. destruct (node_at (fs w) p) as [[c|]|]; by intros [= -> ->].
Qed.

Lemma write_bytes_Ok_inv p b w u w1 :
  write_bytes p b w = (Ok u, w1) → fs w1 = <[p := File b]> (fs w).
Proof.
  unfold write_bytes.
  destruct (node_at (fs w) p) as [[c|]|], (node_at (fs w) (parent p)) as [[c'|]|];
    by intros [= _ <-].
Qed.

Lemma st_size_Ok_inv p w n w1 : st_size p w = (Ok n, w1) → w1 = w.
Proof. unfold st_size. destruct (node_at (fs w) p) as [[c|]|]; by intros [= _ ->]. Qed.

Lemma truediv_Ok_inv a b w u w1 : truediv a b w = (Ok u, w1) → w1 = w.
Proof. unfold truediv. destruct b; by intros [= _ ->]. Qed.

(** What a computation leaves alone: every path outside [S]. *)
Definition touches {A} (S : list path) (m : M A) : Prop :=
  ∀ w q, q ∉ S → fs (m w).2 !! q = fs w !! q.

Lemma touches_mret {A} S (a : A) : touches S (mret a).
Proof. by intros w q _. Qed.

Lemma touches_raise {A} S e : touches S (@raise A e).
Proof. by intros w q _. Qed.

Lemma touches_lift {A} S (r : result A) : touches S (lift r).
Proof. by intros w q _. Qed.

Lemma touches_print S m : touches S (print m).
Proof. by intros w q _. Qed.

Lemma touches_truediv S a b : touches S (truediv a b).
Proof. intros w q _. unfold truediv. by destruct b. Qed.

Lemma touches_read_bytes S p : touches S (read_bytes p).
Proof. intros w q _. unfold read_bytes. by destruct (node_at (fs w) p) as [[c|]|]. Qed.

Lemma touches_st_size S p : touches S (st_size p).
Proof. intros w q _. unfold st_size. by destruct (node_at (fs w) p) as [[c|]|]. Qed.

Lemma touches_write_bytes S p b : p ∈ S → touches S (write_bytes p b).
Proof.
  intros Hp w q Hq. assert (p ≠ q) by congruence. unfold write_bytes.
  destruct (node_at (fs w) p) as [[c|]|], (node_at (fs w) (parent p)) as [[c'|]|];
    simpl; by rewrite ?lookup_insert_ne.
Qed.

Lemma touches_mkdir S p : p ∈ S → touches S (mkdir_exist_ok p).
Proof.
  intros Hp w q Hq. assert (p ≠ q) by congruence. unfold mkdir_exist_ok.
  destruct (node_at (fs w) p) as [[c|]|], (node_at (fs w) (parent p)) as [[c'|]|];
    simpl; by rewrite ?lookup_insert_ne.
Qed.

Lemma touches_bind {A B} S (m : M A) (k : A → M B) :
  touches S m → (∀ a, touches S (k a)) → touches S (m ≫= k).
Proof.
  intros Hm Hk w q Hq. unfold mbind, M_bind.
  specialize (Hm w q Hq). destruct (m w) as [[a|e] w1]; simpl in *; [|done].
  by rewrite (Hk a w1 q Hq).
Qed.

Lemma touches_try {A} S (body handler : M A) :
  touches S body → touches S handler → touches S (try_except_ImportError body handler).
Proof.
  intros Hb Hh w q Hq. unfold try_except_ImportError.
  specialize (Hb w q Hq). destruct (body w) as [[a|e] w1]; simpl in *; [done|].
  destruct (is_ImportError e); simpl; [|done]. by rewrite (Hh w1 q Hq).
Qed.

Lemma touches_if {A} S (P : Prop) `{Decision P} (m1 m2 : M A) :
  touches S m1 → touches S m2 → touches S (if decide P then m1 else m2).
Proof. by case_decide. Qed.

Create HintDb touches.
#[global] Hint Resolve touches_mret touches_raise touches_lift touches_print
  touches_truediv touches_read_bytes touches_st_size touches_try : touches.

Ltac touches :=
  repeat first
    [ apply touches_bind; [|intros]
    | apply touches_try
    | apply touches_if
    | apply touches_write_bytes; set_solver
    | apply touches_mkdir; set_solver
    | match goal with |- touches _ (let '(_, _) := ?x in _) => destruct x end
    | solve [auto with touches] ].

(** The paths the script may create or overwrite. *)
Definition written_paths (output_dir : path) : list path :=
  output_dir :: (joinpath output_dir <$>
    [ "table_data.csv"; "detail_data.csv"; "table_data.csv.gz"; "detail_data.csv.gz";
      "table_data.parquet"; "detail_data.parquet"; "data_index.json" ]).

Lemma touches_optimize `{Libs} input out cap :
  touches (written_paths out) (optimize_csv_data input out cap).
Proof.
  unfold optimize_csv_data, read_csv, to_csv, gzip_file, to_parquet, json_dump,
    written_paths.
  touches.
Qed.

(** Distinct file names give distinct paths. *)
Ltac paths_differ :=
  first
    [ intros ?%joinpath_inj; discriminate
    | by apply joinpath_ne_self
    | by apply not_eq_sym, joinpath_ne_self
    | let Hin := fresh in
      rewrite !elem_of_cons, elem_of_nil; intros Hin;
      repeat (destruct Hin as [Hin%joinpath_inj|Hin]; [discriminate|]);
      destruct Hin ].

(** ** Completed runs *)

Section run.
Context `{Libs}.

Lemma sampling_step_inv (df0 : DataFrame) cap w d w1 :
  (if decide (cap < Z.of_nat (len df0))
   then print (MsgSampling (len df0) cap);; lift (sample df0 cap 42)
   else mret df0) w = (Ok d, w1) →
  (if decide (cap < Z.of_nat (len df0)) then sample df0 cap 42 else Ok df0) = Ok d ∧
  fs w1 = fs w.
Proof.
  case_decide.
  - intros (u & w2 & Hp & Hl)%bind_Ok_inv.
    apply print_Ok_inv in Hp. apply lift_Ok_inv in Hl as [-> ->]. done.
  - by intros [-> ->]%mret_Ok_inv.
Qed.

Lemma gzip_file_Ok_inv src dst w u w1 :
  gzip_file src dst w = (Ok u, w1) →
  ∃ data, node_at (fs w) src = Some (File data) ∧
          fs w1 = <[dst := File (gzip_compress data)]> (fs w).
Proof.
  unfold gzip_file. intros (data & w2 & Hr & Hw)%bind_Ok_inv.
  apply read_bytes_Ok_inv in Hr as [Hr ->].
  apply write_bytes_Ok_inv in Hw. rewrite concat_readlines in Hw. eauto.
Qed.

(** What a run of [optimize_csv_data] that returns has read and written. *)
Lemma optimize_csv_data_Ok_inv input out cap w outs w' :
  optimize_csv_data input out cap w = (Ok outs, w') →
  ∃ b df d,
    node_at (fs w) input = Some (File b) ∧
    read_csv_parse b = Ok df ∧
    detail_df df cap = Ok d ∧
    let table := csv_text (csv_records (table_df df)) in
    let detail := csv_text (csv_records d) in
    fs w' !! joinpath out "table_data.csv" = Some (File table) ∧
    fs w' !! joinpath out "detail_data.csv" = Some (File detail) ∧
    fs w' !! joinpath out "table_data.csv.gz" = Some (File (gzip_compress table)) ∧
    fs w' !! joinpath out "detail_data.csv.gz" = Some (File (gzip_compress detail)) ∧
    fs w' !! joinpath out "data_index.json"
      = Some (File (json_text (index_mapping df (table_df df) d))).
Proof.
  unfold optimize_csv_data. intros Hrun.
  apply bind_Ok_inv in Hrun as (? & w1 & H1%print_Ok_inv & Hrun).
  apply bind_Ok_inv in Hrun as (df & w2 & H2 & Hrun).
  unfold read_csv in H2.
  apply bind_Ok_inv in H2 as (b & ? & [Hb ->]%read_bytes_Ok_inv & H2).
  apply lift_Ok_inv in H2 as [Hparse ->]. rewrite H1 in Hb.
  apply bind_Ok_inv in Hrun as (? & w3 & H3%print_Ok_inv & Hrun).
  apply bind_Ok_inv in Hrun as (? & w4 & H4 & Hrun).
  apply bind_Ok_inv in Hrun as (? & w5 & H5%print_Ok_inv & Hrun).
  apply bind_Ok_inv in Hrun as (? & w6 & H6%write_bytes_Ok_inv & Hrun).
  apply bind_Ok_inv in Hrun as (? & w7 & H7%print_Ok_inv & Hrun).
  apply bind_Ok_inv in Hrun as (? & w8 & H8%print_Ok_inv & Hrun).
  apply bind_Ok_inv in Hrun as (ds & w9 & [Hds H9]%sampling_step_inv & Hrun).
  apply bind_Ok_inv in Hrun as (? & w10 & H10%write_bytes_Ok_inv & Hrun).
  apply bind_Ok_inv in Hrun as (? & w11 & H11%print_Ok_inv & Hrun).
  apply bind_Ok_inv in Hrun as (? & w12 & H12%print_Ok_inv & Hrun).
  apply bind_Ok_inv in Hrun as (? & w13 & (tdata & Ht & H13)%gzip_file_Ok_inv & Hrun).
  apply bind_Ok_inv in Hrun as (? & w14 & (ddata & Hd & H14)%gzip_file_Ok_inv & Hrun).
  apply bind_Ok_inv in Hrun as (? & w15 & H15 & Hrun).
  apply bind_Ok_inv in Hrun as (? & w16 & H16%print_Ok_inv & Hrun).
  apply bind_Ok_inv in Hrun as (? & w17 & H17%write_bytes_Ok_inv & Hrun).
  set (d := setitem ds "row_id" (index ds)) in *.
  assert (Hd' : detail_df df cap = Ok d).
  { unfold detail_df, detail_sampled. by rewrite Hds. }
  (* the parquet step and the tail leave the five files alone *)
  assert (Hpq : ∀ q, q ∉ [joinpath out "table_data.parquet"; joinpath out "detail_data.parquet"] →
            fs w15 !! q = fs w14 !! q).
  { intros q Hq.
    match type of H15 with ?m _ = _ =>
      assert (Ht15 : touches [joinpath out "table_data.parquet"; joinpath out "detail_data.parquet"] m)
    end.
    { unfold to_parquet. touches. }
    specialize (Ht15 w14 q Hq). by rewrite H15 in Ht15. }
  assert (Htail : ∀ q, fs w' !! q = fs w17 !! q).
  { intros q.
    match type of Hrun with ?m _ = _ => assert (Htl : touches [] m) end.
    { touches. }
    specialize (Htl w17 q). rewrite Hrun in Htl. apply Htl. set_solver. }
  (* what the gzip steps read back *)
  rewrite H12, H11, H10, node_at_joinpath, lookup_insert_ne, H9, H8, H7, H6,
    lookup_insert_eq in Ht by (by intros ?%joinpath_inj).
  injection Ht as <-.
  rewrite H13, node_at_joinpath, lookup_insert_ne, H12, H11, H10,
    lookup_insert_eq in Hd by (by intros ?%joinpath_inj).
  injection Hd as <-.
  exists b, df, d. split_and!; try done.
  - rewrite Htail, H17, lookup_insert_ne, H16, Hpq, H14, lookup_insert_ne, H13,
      lookup_insert_ne, H12, H11, H10, lookup_insert_ne, H9, H8, H7, H6,
      lookup_insert_eq by paths_differ. done.
  - rewrite Htail, H17, lookup_insert_ne, H16, Hpq, H14, lookup_insert_ne, H13,
      lookup_insert_ne, H12, H11, H10, lookup_insert_eq by paths_differ. done.
  - rewrite Htail, H17, lookup_insert_ne, H16, Hpq, H14, lookup_insert_ne, H13,
      lookup_insert_eq by paths_differ. done.
  - rewrite Htail, H17, lookup_insert_ne, H16, Hpq, H14, lookup_insert_eq
      by paths_differ. done.
  - rewrite Htail, H17, lookup_insert_eq. done.
Qed.

Lemma main_0_inv a w w' :
  main a w = (0, w') →
  ∃ outs w1, optimize_csv_data (input_file a) (output_dir a) (max_detail_rows a) w = (Ok outs, w1)
             ∧ fs w' = fs w1.
Proof.
  unfold main, path_exists.
  destruct (bool_decide _); [|discriminate].
  destruct (optimize_csv_data _ _ _ w) as [[outs|e] w1]; [|discriminate].
  intros [= <-]. eauto.
Qed.

(** The output directory exists or can be made. *)
Definition creatable (t : gmap path node) (p : path) : Prop :=
  node_at t p = Some Dir ∨ (node_at t p = None ∧ node_at t (parent p) = Some Dir).

Definition nonempty_file (t : gmap path node) (p : path) : Prop :=
  ∃ c, node_at t p = Some (File c) ∧ c ≠ [].

Lemma nonempty_file_insert t p q c :
  c ≠ [] → nonempty_file t p → nonempty_file (<[q := File c]> t) p.
Proof.
  intros Hc (c' & Hp & Hc'). destruct (decide (p = q)) as [->|Hne].
  - exists c. split; [|done]. apply node_at_insert_eq. by intros ->.
  - exists c'. by rewrite node_at_insert_ne.
Qed.

Lemma write_bytes_fwd p b w :
  node_at (fs w) p ≠ Some Dir → node_at (fs w) (parent p) = Some Dir →
  write_bytes p b w = (Ok (), with_fs (<[p := File b]> (fs w)) w).
Proof.
  intros Hp Hd. unfold write_bytes. rewrite Hd.
  by destruct (node_at (fs w) p) as [[c|]|].
Qed.

Lemma read_bytes_fwd p b w :
  node_at (fs w) p = Some (File b) → read_bytes p w = (Ok b, w).
Proof. intros Hp. unfold read_bytes. by rewrite Hp. Qed.

Lemma mkdir_fwd p w :
  creatable (fs w) p →
  ∃ t, mkdir_exist_ok p w = (Ok (), with_fs t w) ∧
       node_at t p = Some Dir ∧
       (∀ q, q ≠ p → t !! q = fs w !! q) ∧
       (∀ q, nonempty_file (fs w) q → nonempty_file t q).
Proof.
  unfold mkdir_exist_ok. intros [Hd|[Hn Hd]].
  - exists (fs w). rewrite Hd. by destruct w.
  - exists (<[p := Dir]> (fs w)). rewrite Hn, Hd. split_and!; [done|..].
    + apply node_at_insert_eq. by intros ->.
    + intros q Hq. by rewrite lookup_insert_ne.
    + intros q (c & Hq & Hc). exists c. rewrite node_at_insert_ne; [done|].
      intros ->. congruence.
Qed.

Lemma nonempty_file_insert_eq t p c :
  c ≠ [] → p ≠ [] → nonempty_file (<[p := File c]> t) p.
Proof. intros Hc Hp. exists c. by rewrite node_at_insert_eq. Qed.

Lemma parsed_nonempty b df : read_csv_parse b = Ok df → b ≠ [].
Proof. intros Hb ->. by rewrite read_csv_empty in Hb. Qed.

Lemma csv_nonempty df : csv_text (csv_records df) ≠ [].
Proof. apply csv_text_nonempty. Qed.

Lemma bind_print {B} m (k : unit → M B) w :
  (print m ≫= k) w = k () {| fs := fs w; stdout := stdout w ++ [m] |}.
Proof. done. Qed.

Lemma bind_truediv {B} a n (k : unit → M B) w :
  (truediv a (S n) ≫= k) w = k () w.
Proof. done. Qed.

Lemma read_csv_fwd p w b df :
  node_at (fs w) p = Some (File b) → read_csv_parse b = Ok df →
  read_csv p w = (Ok df, w).
Proof.
  intros Hp Hb. unfold read_csv.
  rewrite (bind_Ok _ _ _ _ _ (read_bytes_fwd _ _ _ Hp)).
  unfold lift. by rewrite Hb.
Qed.

Lemma gzip_file_fwd src dst data w :
  node_at (fs w) src = Some (File data) →
  node_at (fs w) dst ≠ Some Dir → node_at (fs w) (parent dst) = Some Dir →
  gzip_file src dst w = (Ok (), with_fs (<[dst := File (gzip_compress data)]> (fs w)) w).
Proof.
  intros Hs Hd Hp. unfold gzip_file.
  rewrite (bind_Ok _ _ _ _ _ (read_bytes_fwd _ _ _ Hs)), concat_readlines.
  by apply write_bytes_fwd.
Qed.

(** The CSV files and their gzip copies. *)
Definition csv_gzip_files (output_dir : path) : list path :=
  joinpath output_dir <$>
    [ "table_data.csv"; "detail_data.csv"; "table_data.csv.gz"; "detail_data.csv.gz" ].

(** The files every completed run writes. *)
Definition guaranteed_files (output_dir : path) : list path :=
  csv_gzip_files output_dir ++ [joinpath output_dir "data_index.json"].

Lemma main_Ok a w n outs w1 :
  node_at (fs w) (input_file a) = Some n →
  optimize_csv_data (input_file a) (output_dir a) (max_detail_rows a) w = (Ok outs, w1) →
  main a w = (0, {| fs := fs w1;
                    stdout := (stdout w1 ++ [MsgComplete (output_dir a)]) ++ [MsgNextSteps] |}).
Proof.
  intros Hn Hrun. unfold main, path_exists.
  rewrite bool_decide_true by (by rewrite Hn). by rewrite Hrun.
Qed.

Lemma main_Raise a w n e w1 :
  node_at (fs w) (input_file a) = Some n →
  optimize_csv_data (input_file a) (output_dir a) (max_detail_rows a) w = (Raise e, w1) →
  main a w = (1, {| fs := fs w1; stdout := stdout w1 ++ [MsgError e] |}).
Proof.
  intros Hn Hrun. unfold main, path_exists.
  rewrite bool_decide_true by (by rewrite Hn). by rewrite Hrun.
Qed.

Lemma detail_df_sampled df cap d :
  detail_df df cap = Ok d →
  ∃ ds msgs, d = setitem ds "row_id" (index ds) ∧
    ∀ w,
      (let df0 := getitem df (all_detail_cols df) in
       if decide (cap < Z.of_nat (len df0))
       then print (MsgSampling (len df0) cap);; lift (sample df0 cap 42)
       else mret df0) w = (Ok ds, {| fs := fs w; stdout := stdout w ++ msgs |}).
Proof.
  unfold detail_df, detail_sampled. cbn zeta.
  case_decide as Hlt.
  - destruct (sample _ cap 42) as [ds|e] eqn:Hs; intros [= <-].
    exists ds, [MsgSampling (len (getitem df (all_detail_cols df))) cap].
    split; [done|]. intros w. by rewrite bind_print.
  - intros [= <-]. eexists _, []. split; [done|]. intros w. rewrite app_nil_r.
    by destruct w.
Qed.

(** The file system once both CSV files and their gzip copies are written. *)
Definition csv_and_gzip (out : path) (table detail : DataFrame)
    (t : gmap path node) : gmap path node :=
  let table_csv := csv_text (csv_records table) in
  let detail_csv := csv_text (csv_records detail) in
  <[joinpath out "detail_data.csv.gz" := File (gzip_compress detail_csv)]>
    (<[joinpath out "table_data.csv.gz" := File (gzip_compress table_csv)]>
       (<[joinpath out "detail_data.csv" := File detail_csv]>
          (<[joinpath out "table_data.csv" := File table_csv]> t))).

(** How the Parquet step ends: both files written, or the engine raised on
    the table frame, or on the detail frame after the table's file. *)
Inductive parquet_outcome :=
| PqDone (table detail : bytes)
| PqTableRaised (e : exn)
| PqDetailRaised (table : bytes) (e : exn).

Definition parquet_outcome_of (table detail : DataFrame) : parquet_outcome :=
  match parquet_encode table with
  | Raise e => PqTableRaised e
  | Ok bt =>
      match parquet_encode detail with
      | Raise e => PqDetailRaised bt e
      | Ok bd => PqDone bt bd
      end
  end.

Definition parquet_files (out : path) (o : parquet_outcome)
    (t : gmap path node) : gmap path node :=
  match o with
  | PqDone bt bd =>
      <[joinpath out "detail_data.parquet" := File bd]>
        (<[joinpath out "table_data.parquet" := File bt]> t)
  | PqTableRaised _ => t
  | PqDetailRaised bt _ => <[joinpath out "table_data.parquet" := File bt]> t
  end.

Definition parquet_targets (out : path) (o : parquet_outcome) : list path :=
  match o with
  | PqDone _ _ => [joinpath out "table_data.parquet"; joinpath out "detail_data.parquet"]
  | PqTableRaised _ => []
  | PqDetailRaised _ _ => [joinpath out "table_data.parquet"]
  end.

(** The exception that leaves the Parquet step, if any. *)
Definition parquet_abort (o : parquet_outcome) : option exn :=
  match o with
  | PqDone _ _ => None
  | PqTableRaised e | PqDetailRaised _ e => if is_ImportError e then None else Some e
  end.

(** The paths a run gets to write, given how its Parquet step ends. *)
Definition needed_files (out : path) (o : parquet_outcome) : list path :=
  csv_gzip_files out ++ parquet_targets out o ++
  match parquet_abort o with
  | Some _ => []
  | None => [joinpath out "data_index.json"]
  end.

Definition parquet_messages (o : parquet_outcome) : list message :=
  match o with
  | PqDone _ _ => [MsgCreatingParquet; MsgParquetCreated]
  | PqTableRaised e | PqDetailRaised _ e =>
      if is_ImportError e then [MsgCreatingParquet; MsgParquetSkipped]
      else [MsgCreatingParquet]
  end.

Lemma parquet_step_fwd T D out w :
  let o := parquet_outcome_of T D in
  (∀ p, p ∈ parquet_targets out o → node_at (fs w) p ≠ Some Dir) →
  node_at (fs w) out = Some Dir →
  try_except_ImportError
    (print MsgCreatingParquet;;
     to_parquet T (joinpath out "table_data.parquet");;
     to_parquet D (joinpath out "detail_data.parquet");;
     print MsgParquetCreated)
    (print MsgParquetSkipped) w
  = (match parquet_abort o with Some e => Raise e | None => Ok () end,
     {| fs := parquet_files out o (fs w); stdout := stdout w ++ parquet_messages o |}).
Proof.
  intros o Hp Hout. subst o. unfold parquet_outcome_of in *.
  unfold try_except_ImportError, to_parquet.
  rewrite bind_print. unfold mbind at 1, M_bind at 1.
  unfold mbind at 1, M_bind at 1, lift at 1.
  destruct (parquet_encode T) as [bt|e]; simpl in Hp.
  - rewrite write_bytes_fwd; cycle 1.
    { apply Hp. destruct (parquet_encode D); set_solver. }
    { by rewrite parent_joinpath. }
    unfold mbind at 1, M_bind at 1.
    unfold mbind at 1, M_bind at 1, lift at 1.
    destruct (parquet_encode D) as [bd|e]; simpl in Hp.
    + rewrite write_bytes_fwd; cycle 1.
      { cbn [fs with_fs]. rewrite node_at_insert_ne by paths_differ. apply Hp. set_solver. }
      { cbn [fs with_fs]. rewrite parent_joinpath, node_at_insert_ne by paths_differ. done. }
      unfold mbind, M_bind, print, with_fs. simpl. by rewrite <- !app_assoc.
    + simpl. destruct (is_ImportError e); unfold print, with_fs; simpl; by rewrite <- ?app_assoc.
  - simpl. destruct (is_ImportError e); unfold print, with_fs; simpl; by rewrite <- ?app_assoc.
Qed.

Lemma parquet_bytes_nonempty df b : parquet_encode df = Ok b → b ≠ [].
Proof. intros Hb ->. by apply (parquet_nonempty df). Qed.

Ltac step tac := etrans; [apply bind_Ok; tac|]; cbn beta; cbn [fs stdout with_fs].

Ltac node_facts Hout Ht Hfiles :=
  cbn [fs stdout with_fs]; rewrite ?parent_joinpath;
  first
    [ (* the output directory is a directory *)
      rewrite ?node_at_insert_ne by paths_differ; exact Hout
    | (* a file just written reads back *)
      rewrite node_at_joinpath; rewrite ?lookup_insert_ne by paths_differ;
      rewrite lookup_insert_eq; reflexivity
    | (* an output path is no directory *)
      rewrite node_at_joinpath; rewrite ?lookup_insert_ne by paths_differ;
      first [ rewrite lookup_insert_eq; discriminate
            | rewrite Ht by paths_differ; apply Hfiles;
              unfold needed_files, csv_gzip_files; simpl;
              rewrite ?elem_of_app, ?elem_of_cons; tauto ] ].

Lemma parquet_outcome_nonempty T D :
  match parquet_outcome_of T D with
  | PqDone bt bd => bt ≠ [] ∧ bd ≠ []
  | PqTableRaised _ => True
  | PqDetailRaised bt _ => bt ≠ []
  end.
Proof.
  unfold parquet_outcome_of.
  destruct (parquet_encode T) as [bt|e] eqn:HT; [|done].
  destruct (parquet_encode D) as [bd|e] eqn:HD;
    eauto using parquet_bytes_nonempty.
Qed.

Ltac nonempty_content :=
  first [ apply json_text_nonempty | apply gzip_nonempty | apply csv_nonempty
        | assumption ].

Ltac nonempty_files Hne :=
  cbn [fs stdout with_fs];
  repeat first
    [ apply nonempty_file_insert_eq; [nonempty_content | apply joinpath_nonempty]
    | apply nonempty_file_insert; [nonempty_content |] ];
  try (apply Hne; eexists; split; [eassumption | assumption]).

Lemma st_size_file p c w :
  node_at (fs w) p = Some (File c) → st_size p w = (Ok (length c), w).
Proof. intros Hp. unfold st_size. by rewrite Hp. Qed.

(** Steps 5 and 6, from a world in which the manifest path is writable:
    the three files whose sizes are reported are then non-empty. *)
Ltac run_tail input out J Hout Ht Hfiles Hne :=
  let c0 := fresh "c" in let c1 := fresh "c" in let c2 := fresh "c" in
  let H0 := fresh "Hc" in let H1 := fresh "Hc" in let H2 := fresh "Hc" in
  match goal with
  | |- ∃ r w', (print _ ≫= _) {| fs := ?F0; stdout := _ |} = _ ∧ _ =>
      assert (nonempty_file (<[joinpath out "data_index.json" := File (json_text J)]> F0)
                input) as (c0 & H0 & ?) by nonempty_files Hne;
      assert (nonempty_file (<[joinpath out "data_index.json" := File (json_text J)]> F0)
                (joinpath out "table_data.csv")) as (c1 & H1 & ?) by nonempty_files Hne;
      assert (nonempty_file (<[joinpath out "data_index.json" := File (json_text J)]> F0)
                (joinpath out "table_data.csv.gz")) as (c2 & H2 & ?) by nonempty_files Hne
  end;
  destruct c0; [done|]; destruct c1; [done|]; destruct c2; [done|];
  eexists _, _; split;
  [ rewrite bind_print;
    step ltac:(apply write_bytes_fwd; node_facts Hout Ht Hfiles);
    step ltac:(apply st_size_file; exact H0);
    step ltac:(apply st_size_file; exact H1);
    step ltac:(apply st_size_file; exact H2);
    cbn [length];
    rewrite !bind_print, bind_truediv, bind_print, bind_truediv, bind_print,
      bind_truediv, bind_print;
    reflexivity
  | ].

(** A run from a world in which only the Parquet engine can fail: the
    input is a regular file that parses, the output directory exists or can
    be made, and no output path is a directory. *)
Lemma optimize_csv_data_ready input out cap w b df d :
  let o := parquet_outcome_of (table_df df) d in
  node_at (fs w) input = Some (File b) →
  read_csv_parse b = Ok df →
  creatable (fs w) out →
  (∀ p, p ∈ needed_files out o → fs w !! p ≠ Some Dir) →
  detail_df df cap = Ok d →
  ∃ t, (∀ q, q ≠ out → t !! q = fs w !! q) ∧
  ∃ r w', optimize_csv_data input out cap w = (r, w') ∧
    (∀ m, m ∈ parquet_messages o → m ∈ stdout w') ∧
    match parquet_abort o with
    | Some e =>
        r = Raise e ∧
        fs w' = parquet_files out o (csv_and_gzip out (table_df df) d t)
    | None =>
        (∃ outs, r = Ok outs) ∧
        fs w' = <[joinpath out "data_index.json" :=
                    File (json_text (index_mapping df (table_df df) d))]>
                  (parquet_files out o (csv_and_gzip out (table_df df) d t))
    end.
Proof.
  intros o Hin Hparse Hdir Hfiles Hd.
  destruct (mkdir_fwd out
    {| fs := fs w;
       stdout := (stdout w ++ [MsgReading input]) ++
         [MsgLoaded (len df) (length (columns df))] |} Hdir)
    as (t & Hmk & Hout & Ht & Hne).
  cbn [fs] in Ht, Hne.
  pose proof (parsed_nonempty _ _ Hparse) as Hb.
  destruct (detail_df_sampled _ _ _ Hd) as (ds & msgs & Hds & Hs).
  exists t. split; [exact Ht|].
  eassert (Hpre : optimize_csv_data input out cap w = _).
  { unfold optimize_csv_data.
    rewrite bind_print.
    step ltac:(by eapply read_csv_fwd).
    rewrite bind_print.
    step ltac:(exact Hmk).
    rewrite bind_print.
    step ltac:(apply write_bytes_fwd; node_facts Hout Ht Hfiles).
    rewrite !bind_print.
    step ltac:(apply Hs).
    rewrite <- Hds.
    step ltac:(apply write_bytes_fwd; node_facts Hout Ht Hfiles).
    rewrite !bind_print.
    step ltac:(apply gzip_file_fwd; node_facts Hout Ht Hfiles).
    step ltac:(apply gzip_file_fwd; node_facts Hout Ht Hfiles).
    unfold mbind at 1, M_bind at 1.
    rewrite parquet_step_fwd; cycle 1.
    { intros p Hp. cbn [fs with_fs].
      assert (Hp' : p ∈ needed_files out o)
        by (unfold needed_files; rewrite !elem_of_app; tauto).
      specialize (Hfiles p Hp').
      destruct (parquet_outcome_of (table_df df) d); simpl in Hp;
        rewrite ?elem_of_cons, elem_of_nil in Hp;
        destruct_or?; try done; subst p;
        rewrite node_at_joinpath, !lookup_insert_ne, Ht by paths_differ; done. }
    { node_facts Hout Ht Hfiles. }
    cbn [fs stdout with_fs]. reflexivity. }
  rewrite Hpre. clear Hpre. fold o. fold (csv_and_gzip out (table_df df) d t).
  pose proof (parquet_outcome_nonempty (table_df df) d) as Hpq. fold o in Hpq.
  clearbody o. unfold csv_and_gzip.
  unfold needed_files in Hfiles.
  destruct o as [bt bd|e|bt e];
    cbn [parquet_abort parquet_files parquet_messages parquet_targets] in *.
  - destruct Hpq as [Hbt Hbd].
    run_tail input out (index_mapping df (table_df df) d) Hout Ht Hfiles Hne.
    cbn [fs stdout with_fs]. split; [|split; [by eauto | reflexivity]].
    intros m Hm. rewrite !elem_of_app. tauto.
  - destruct (is_ImportError e).
    + run_tail input out (index_mapping df (table_df df) d) Hout Ht Hfiles Hne.
      cbn [fs stdout with_fs]. split; [|split; [by eauto | reflexivity]].
      intros m Hm. rewrite !elem_of_app. tauto.
    + eexists _, _. split; [reflexivity|]. cbn [fs stdout with_fs].
      split; [|done]. intros m Hm. rewrite !elem_of_app. tauto.
  - destruct (is_ImportError e).
    + run_tail input out (index_mapping df (table_df df) d) Hout Ht Hfiles Hne.
      cbn [fs stdout with_fs]. split; [|split; [by eauto | reflexivity]].
      intros m Hm. rewrite !elem_of_app. tauto.
    + eexists _, _. split; [reflexivity|]. cbn [fs stdout with_fs].
      split; [|done]. intros m Hm. rewrite !elem_of_app. tauto.
Qed.

(** ** The manifest as a JSON object *)

Fixpoint assoc (k : string) (kvs : list (string * json)) : option json :=
  match kvs with
  | [] => None
  | (k', v) :: kvs => if decide (k = k') then Some v else assoc k kvs
  end.

(** [j[k]] for a JSON object [j] *)
Definition json_get (k : string) (j : json) : option json :=
  match j with
  | JObject kvs => assoc k kvs
  | _ => None
  end.

Lemma NoDup_all_detail_cols df : NoDup (all_detail_cols df).
Proof.
  unfold all_detail_cols, available_table_cols. apply NoDup_app. split_and!.
  - apply NoDup_filter. compute_done.
  - intros c [_ Ht]%list_elem_of_filter [_ Hd]%list_elem_of_filter.
    revert Ht Hd. apply (Forall_forall (λ c, c ∈ DETAIL_COLUMNS → False) TABLE_COLUMNS).
    repeat constructor; compute_done.
  - apply NoDup_filter. compute_done.
Qed.



Lemma filter_lookup_not_in (cols : list string) (r : row) c :
  c ∉ cols → filter (λ kv, kv.1 ∈ cols) r !! c = None.
Proof.
  intros Hc. rewrite map_lookup_filter. destruct (r !! c) as [v|]; simpl; [|done].
  by rewrite option_guard_False.
Qed.

#[local] Opaque str_slice.

(** C3: in every row of the table frame the value under
    [property_description] is a string of at most 500 characters and the
    value under [evidence] a string of at most 300, and so are the fields
    [to_csv] writes for them. *)
Theorem table_text_limits (df : DataFrame) (l : cell) (r : row) :
  (l, r) ∈ rows (table_df df) →
  (∀ v, r !! "property_description" = Some v →
        ∃ s, v = Str s ∧ (String.length s ≤ 500)%nat) ∧
  (∀ v, r !! "evidence" = Some v →
        ∃ s, v = Str s ∧ (String.length s ≤ 300)%nat) ∧
  (String.length (csv_field (r !! "property_description")) ≤ 500)%nat ∧
  (String.length (csv_field (r !! "evidence")) ≤ 300)%nat.
Proof.
  destruct (table_df_spec df) as [_ ->].
  intros ([l0 r0] & Heq & _)%list_elem_of_fmap.
  assert (r = (table_row df (l0, r0)).2) as -> by (by rewrite <- Heq). clear Heq.
  set (r1 := <["row_id" := l0]>
               (filter (λ kv, kv.1 ∈ available_table_cols df) r0)).
  assert (Hpd : ∀ v,
    (if decide ("property_description" ∈ available_table_cols df)
     then <["property_description" :=
              Str (str_slice 500 (py_str (default NaN (r1 !! "property_description"))))]> r1
     else r1) !! "property_description" = Some v →
    ∃ s, v = Str s ∧ (String.length s ≤ 500)%nat).
  { intros v. case_decide as Hin.
    - rewrite lookup_insert_eq. intros [= <-]. eexists. split; [reflexivity|].
      apply str_slice_length.
    - subst r1. rewrite lookup_insert_ne by done.
      by rewrite filter_lookup_not_in. }
  assert (Hpd' : ∀ v, (table_row df (l0, r0)).2 !! "property_description" = Some v →
    ∃ s, v = Str s ∧ (String.length s ≤ 500)%nat).
  { intros v. unfold table_row. cbn [fst snd]. fold r1.
    destruct (decide ("evidence" ∈ _)); rewrite ?lookup_insert_ne by done; apply Hpd. }
  assert (Hev : ∀ v, (table_row df (l0, r0)).2 !! "evidence" = Some v →
    ∃ s, v = Str s ∧ (String.length s ≤ 300)%nat).
  { intros v. unfold table_row. cbn [fst snd]. fold r1.
    destruct (decide ("evidence" ∈ _)) as [Hin|Hin].
    - rewrite lookup_insert_eq. intros [= <-]. eexists. split; [reflexivity|].
      apply str_slice_length.
    - destruct (decide ("property_description" ∈ _));
        rewrite ?lookup_insert_ne by done; subst r1;
        rewrite lookup_insert_ne by done; by rewrite filter_lookup_not_in. }
  split_and!; [done | done | |].
  - destruct (_.2 !! "property_description") as [v|] eqn:E; [|simpl; lia].
    destruct (Hpd' v eq_refl) as (s & -> & Hs). done.
  - destruct (_.2 !! "evidence") as [v|] eqn:E; [|simpl; lia].
    destruct (Hev v eq_refl) as (s & -> & Hs). done.
Qed.

Lemma detail_row_row_id df lr :
  (detail_row df lr).2 !! "row_id" = Some lr.1.
Proof. unfold detail_row. cbn [snd]. by rewrite lookup_insert_eq. Qed.


Lemma table_df_lookup df k l r :
  rows (table_df df) !! k = Some (l, r) ↔
  ∃ r0, rows df !! k = Some (l, r0) ∧ r = (table_row df (l, r0)).2.
Proof.
  destruct (table_df_spec df) as [_ ->].
  rewrite list_lookup_fmap. destruct (rows df !! k) as [[l0 r0]|]; simpl.
  - change (table_row df (l0, r0)) with (l0, (table_row df (l0, r0)).2).
    split.
    + intros [= <- <-]. eauto.
    + by intros (? & [= <- <-] & ->).
  - split; [done | by intros (? & ? & _)].
Qed.


Lemma main_0_files a w w' b df :
  node_at (fs w) (input_file a) = Some (File b) →
  read_csv_parse b = Ok df →
  main a w = (0, w') →
  let out := output_dir a in
  ∃ d, detail_df df (max_detail_rows a) = Ok d ∧
    fs w' !! joinpath out "table_data.csv"
      = Some (File (csv_text (csv_records (table_df df)))) ∧
    fs w' !! joinpath out "detail_data.csv" = Some (File (csv_text (csv_records d))) ∧
    fs w' !! joinpath out "table_data.csv.gz"
      = Some (File (gzip_compress (csv_text (csv_records (table_df df))))) ∧
    fs w' !! joinpath out "detail_data.csv.gz"
      = Some (File (gzip_compress (csv_text (csv_records d)))) ∧
    fs w' !! joinpath out "data_index.json"
      = Some (File (json_text (index_mapping df (table_df df) d))).
Proof.
  intros Hin Hparse (outs & w1 & Hrun & Hfs)%main_0_inv out.
  apply optimize_csv_data_Ok_inv in Hrun
    as (b' & df' & d & Hin' & Hparse' & Hd & Hfiles).
  rewrite Hin in Hin'. injection Hin' as <-.
  rewrite Hparse in Hparse'. injection Hparse' as <-.
  exists d. rewrite Hfs. split; [done|]. exact Hfiles.
Qed.

Lemma csv_records_length df : length (csv_records df) = S (len df).
Proof. unfold csv_records, len. simpl. by rewrite length_fmap. Qed.

Lemma len_table_df df : len (table_df df) = len df.
Proof.
  unfold len. destruct (table_df_spec df) as [_ ->]. by rewrite length_fmap.
Qed.

Lemma len_detail_df df cap d :
  detail_df df cap = Ok d →
  len d = if decide (cap < Z.of_nat (len df)) then Z.to_nat cap else len df.
Proof.
  intros Hd. apply detail_df_spec in Hd as (Hcap & _ & Hrows).
  unfold len at 1. rewrite Hrows, length_fmap. by apply kept_rows_length.
Qed.

Lemma series_row_id_detail df cap d :
  detail_df df cap = Ok d →
  series d "row_id" = (kept_rows df cap).*1.
Proof.
  intros Hd. apply detail_df_spec in Hd as (_ & _ & Hrows).
  unfold series. rewrite Hrows, <- !list_fmap_compose.
  apply list_fmap_ext. intros _ lr _. cbn [compose].
  by rewrite (detail_row_row_id df lr).
Qed.


Lemma index_frame_of cols rs :
  index (frame_of cols rs) = (λ i, Int (Z.of_nat i)) <$> seq 0 (length rs).
Proof.
  unfold index, frame_of. cbn [rows]. apply list_eq. intros k.
  rewrite !list_lookup_fmap, list_lookup_imap.
  destruct (rs !! k) as [r|] eqn:Hk; csimpl.
  - apply lookup_lt_Some in Hk. by rewrite lookup_seq_lt.
  - apply lookup_ge_None in Hk. by rewrite lookup_seq_ge.
Qed.




(** C9: after a run that completes, each gzip file decompresses to the
    bytes of the CSV file of the same name. *)
Theorem gzip_outputs_roundtrip (a : args) (w w' : world) (name : string) :
  main a w = (0, w') →
  name ∈ ["table_data.csv"; "detail_data.csv"] →
  ∃ csv gz,
    fs w' !! joinpath (output_dir a) name = Some (File csv) ∧
    fs w' !! joinpath (output_dir a) (name +:+ ".gz") = Some (File gz) ∧
    gzip_decompress gz = Some csv.
Proof.
  intros Hrun Hname.
  destruct (main_0_inv _ _ _ Hrun) as (outs & w1 & Hopt & Hfs).
  apply optimize_csv_data_Ok_inv in Hopt
    as (b & df & d & _ & _ & _ & Htab & Hdet & Htgz & Hdgz & _).
  rewrite <- Hfs in Htab, Hdet, Htgz, Hdgz.
  rewrite !elem_of_cons, elem_of_nil in Hname.
  destruct Hname as [->|[->|[]]]; eexists _, _;
    (split; [eassumption|]); (split; [eassumption|]); apply gzip_roundtrip.
Qed.

(** C8: when the input path does not exist, [main] prints one message,
    exits with code 1 and leaves the file system as it found it. *)
Theorem missing_input_exit_1 (a : args) (w : world) :
  node_at (fs w) (input_file a) = None →
  main a w = (1, {| fs := fs w;
                    stdout := stdout w ++ [MsgInputNotFound (input_file a)] |}).
Proof.
  intros Hin. unfold main, path_exists. rewrite Hin.
  rewrite bool_decide_false by (by intros [? ?]). done.
Qed.

Lemma set_iter_all_detail_cols df :
  set_iter (all_detail_cols df) ≡ₚ all_detail_cols df ∧
  NoDup (set_iter (all_detail_cols df)).
Proof.
  assert (Hp : remove_dups (all_detail_cols df) ≡ₚ all_detail_cols df).
  { apply NoDup_Permutation.
    - apply NoDup_remove_dups.
    - apply NoDup_all_detail_cols.
    - apply elem_of_remove_dups. }
  split.
  - by rewrite set_iter_perm.
  - rewrite set_iter_perm. apply NoDup_remove_dups.
Qed.

(** C6, amended: the manifest of a completed run records the number of
    rows of the data, of the table frame and of the detail frame; under
    [available_columns] its [table] entry is the table allow-list
    restricted to the columns of the data, in allow-list order, and its
    [detail] entry lists the columns selected for the detail frame (the
    table columns and the present extra columns), each once, in the order
    in which the set is enumerated. *)
Theorem manifest_contents (a : args) (w w' : world) (b : bytes) (df : DataFrame) :
  node_at (fs w) (input_file a) = Some (File b) →
  read_csv_parse b = Ok df →
  main a w = (0, w') →
  let table_cols := filter (λ c, c ∈ columns df) TABLE_COLUMNS in
  let extra_cols := filter (λ c, c ∈ columns df) DETAIL_COLUMNS in
  ∃ d manifest listed,
    detail_df df (max_detail_rows a) = Ok d ∧
    fs w' !! joinpath (output_dir a) "data_index.json" = Some (File (json_text manifest)) ∧
    json_get "total_rows" manifest = Some (JInt (Z.of_nat (len df))) ∧
    json_get "table_rows" manifest = Some (JInt (Z.of_nat (len (table_df df)))) ∧
    len (table_df df) = len df ∧
    json_get "detail_rows" manifest = Some (JInt (Z.of_nat (len d))) ∧
    json_get "available_columns" manifest ≫= json_get "table"
      = Some (JList (JStr <$> table_cols)) ∧
    json_get "available_columns" manifest ≫= json_get "detail"
      = Some (JList (JStr <$> listed)) ∧
    listed ≡ₚ table_cols ++ extra_cols ∧
    NoDup listed ∧
    columns (table_df df) = table_cols ++ ["row_id"] ∧
    columns d = (table_cols ++ extra_cols) ++ ["row_id"].
Proof.
  intros Hin Hparse Hrun table_cols extra_cols.
  destruct (main_0_files _ _ _ _ _ Hin Hparse Hrun)
    as (d & Hd & _ & _ & _ & _ & Hidx).
  destruct (set_iter_all_detail_cols df) as [Hperm Hnodup].
  exists d, (index_mapping df (table_df df) d), (set_iter (all_detail_cols df)).
  split_and!.
  - done.
  - done.
  - done.
  - done.
  - by rewrite len_table_df.
  - done.
  - done.
  - done.
  - done.
  - done.
  - by destruct (table_df_spec df) as [-> _].
  - by apply detail_df_spec in Hd as (_ & -> & _).
Qed.

(** C7: when the Parquet engine raises an ImportError, from a world in
    which nothing else fails (the input is a regular file that parses, the
    output directory exists or can be made, no output path is a directory
    and the cap is not negative), [main] prints the warning and exits with
    code 0, having written both CSV files, both gzip files and the
    manifest, and no Parquet file. *)
Theorem parquet_unavailable_still_succeeds (a : args) (w : world) (b : bytes)
    (df : DataFrame) (e : exn) :
  let out := output_dir a in
  node_at (fs w) (input_file a) = Some (File b) →
  read_csv_parse b = Ok df →
  creatable (fs w) out →
  (∀ p, p ∈ guaranteed_files out → fs w !! p ≠ Some Dir) →
  0 ≤ max_detail_rows a →
  parquet_encode (table_df df) = Raise e →
  is_ImportError e = true →
  ∃ d w',
    detail_df df (max_detail_rows a) = Ok d ∧
    main a w = (0, w') ∧
    MsgParquetSkipped ∈ stdout w' ∧
    fs w' !! joinpath out "table_data.csv"
      = Some (File (csv_text (csv_records (table_df df)))) ∧
    fs w' !! joinpath out "detail_data.csv" = Some (File (csv_text (csv_records d))) ∧
    fs w' !! joinpath out "table_data.csv.gz"
      = Some (File (gzip_compress (csv_text (csv_records (table_df df))))) ∧
    fs w' !! joinpath out "detail_data.csv.gz"
      = Some (File (gzip_compress (csv_text (csv_records d)))) ∧
    fs w' !! joinpath out "data_index.json"
      = Some (File (json_text (index_mapping df (table_df df) d))) ∧
    fs w' !! joinpath out "table_data.parquet" = fs w !! joinpath out "table_data.parquet" ∧
    fs w' !! joinpath out "detail_data.parquet" = fs w !! joinpath out "detail_data.parquet".
Proof.
  intros out Hin Hparse Hdir Hfiles Hcap Hpq He.
  destruct (detail_df_total df _ Hcap) as [d Hd]. exists d.
  destruct (optimize_csv_data_ready (input_file a) out (max_detail_rows a) w b df d)
    as (t & Ht & r & w1 & Hrun & Hmsgs & Hend); try done.
  { unfold parquet_outcome_of, needed_files. rewrite Hpq. simpl. rewrite He.
    intros p Hp. apply Hfiles. unfold guaranteed_files, csv_gzip_files in *.
    simpl in Hp |- *. rewrite ?elem_of_app, ?elem_of_cons in Hp |- *. tauto. }
  unfold parquet_outcome_of in Hmsgs, Hend.
  rewrite Hpq in Hmsgs, Hend. simpl in Hmsgs, Hend. rewrite He in Hmsgs, Hend.
  destruct Hend as [[outs ->] Hfs].
  eexists. split; [done|]. split; [by eapply main_Ok|]. cbn [fs stdout].
  split.
  { rewrite !elem_of_app. left. left. apply Hmsgs. set_solver. }
  rewrite Hfs. unfold csv_and_gzip.
  split_and!.
  all: rewrite ?lookup_insert_ne by paths_differ; rewrite ?lookup_insert_eq; try done.
  all: apply Ht; paths_differ.
Qed.

(** C10: when the Parquet engine raises an exception that is not an
    ImportError, on the table frame or on the detail frame, from a world
    in which the steps before it do not fail, [main] ends by printing the
    error and exits with code 1; both CSV files and both gzip files are
    written, and the manifest path holds what it held before the run. *)
Theorem parquet_error_leaves_no_manifest (a : args) (w : world) (b : bytes)
    (df d : DataFrame) (e : exn) :
  let out := output_dir a in
  node_at (fs w) (input_file a) = Some (File b) →
  read_csv_parse b = Ok df →
  creatable (fs w) out →
  detail_df df (max_detail_rows a) = Ok d →
  (parquet_encode (table_df df) = Raise e ∨
   ∃ bt, parquet_encode (table_df df) = Ok bt ∧ parquet_encode d = Raise e) →
  is_ImportError e = false →
  (∀ p, p ∈ csv_gzip_files out ++ parquet_targets out (parquet_outcome_of (table_df df) d) →
        fs w !! p ≠ Some Dir) →
  ∃ w',
    main a w = (1, w') ∧
    last (stdout w') = Some (MsgError e) ∧
    fs w' !! joinpath out "table_data.csv"
      = Some (File (csv_text (csv_records (table_df df)))) ∧
    fs w' !! joinpath out "detail_data.csv" = Some (File (csv_text (csv_records d))) ∧
    fs w' !! joinpath out "table_data.csv.gz"
      = Some (File (gzip_compress (csv_text (csv_records (table_df df))))) ∧
    fs w' !! joinpath out "detail_data.csv.gz"
      = Some (File (gzip_compress (csv_text (csv_records d)))) ∧
    fs w' !! joinpath out "data_index.json" = fs w !! joinpath out "data_index.json".
Proof.
  intros out Hin Hparse Hdir Hd Hpq He Hfiles.
  assert (Habort : parquet_abort (parquet_outcome_of (table_df df) d) = Some e).
  { unfold parquet_outcome_of.
    destruct Hpq as [->|(bt & -> & ->)]; simpl; by rewrite He. }
  destruct (optimize_csv_data_ready (input_file a) out (max_detail_rows a) w b df d)
    as (t & Ht & r & w1 & Hrun & _ & Hend); try done.
  { unfold needed_files. rewrite Habort, app_nil_r. exact Hfiles. }
  rewrite Habort in Hend. destruct Hend as [-> Hfs].
  eexists. split; [by eapply main_Raise|]. cbn [fs stdout].
  split; [apply last_snoc|].
  rewrite Hfs. unfold csv_and_gzip.
  destruct (parquet_outcome_of (table_df df) d); cbn [parquet_files].
  all: split_and!.
  all: rewrite ?lookup_insert_ne by paths_differ; rewrite ?lookup_insert_eq; try done.
  all: apply Ht; paths_differ.
Qed.

End run.
(** ** Two runs of the script *)

(** Two runs are two Python processes, each with the libraries as it
    loaded them.  What a process fixes anew (the order in which its sets
    enumerate, which follows the hash seed of the process) may differ
    between the two; the frame [pd.read_csv] makes of given bytes and the
    permutation the generator seeded with 42 produces are functions of
    their arguments, which is what the first two hypotheses of the theorem
    below say of the two processes. *)

Lemma detail_df_seeded (L1 L2 : Libs) (df : DataFrame) (cap : Z) :
  (∀ n, @RandomState_permutation L1 42 n = @RandomState_permutation L2 42 n) →
  @detail_df L1 df cap = @detail_df L2 df cap.
Proof.
  intros Hperm. unfold detail_df, detail_sampled, sample. by rewrite Hperm.
Qed.

(** C5: two runs that complete on the same input bytes with the same cap,
    in two processes, from whatever worlds and into whatever output
    directories, keep the same rows: the detail frame is the same (rows,
    order and row identifiers), each run has written it as its detail file,
    and the manifests of the two runs hold the same [detail_rows] and the
    same [row_id_mapping].  (The manifests as a whole need not be equal:
    the order of [available_columns.detail] is that of a set.) *)
Theorem sampling_deterministic (L1 L2 : Libs) (a1 a2 : args)
    (w1 w2 w1' w2' : world) (b : bytes) :
  @read_csv_parse L1 b = @read_csv_parse L2 b →
  (∀ n, @RandomState_permutation L1 42 n = @RandomState_permutation L2 42 n) →
  node_at (fs w1) (input_file a1) = Some (File b) →
  node_at (fs w2) (input_file a2) = Some (File b) →
  max_detail_rows a1 = max_detail_rows a2 →
  @main L1 a1 w1 = (0, w1') →
  @main L2 a2 w2 = (0, w2') →
  ∃ df d m1 m2,
    @read_csv_parse L1 b = Ok df ∧
    @detail_df L1 df (max_detail_rows a1) = Ok d ∧
    @detail_df L2 df (max_detail_rows a2) = Ok d ∧
    fs w1' !! joinpath (output_dir a1) "detail_data.csv"
      = Some (File (@csv_text L1 (csv_records d))) ∧
    fs w2' !! joinpath (output_dir a2) "detail_data.csv"
      = Some (File (@csv_text L2 (csv_records d))) ∧
    series d "row_id" = index d ∧
    index d = (@kept_rows L1 df (max_detail_rows a1)).*1 ∧
    fs w1' !! joinpath (output_dir a1) "data_index.json"
      = Some (File (@json_text L1 m1)) ∧
    fs w2' !! joinpath (output_dir a2) "data_index.json"
      = Some (File (@json_text L2 m2)) ∧
    m1 = @index_mapping L1 df (table_df df) d ∧
    m2 = @index_mapping L2 df (table_df df) d ∧
    json_get "detail_rows" m1 = json_get "detail_rows" m2 ∧
    json_get "row_id_mapping" m1 = json_get "row_id_mapping" m2.
Proof.
  intros Hparser Hseed Hin1 Hin2 Hcap Hrun1 Hrun2.
  destruct (@main_0_inv L1 _ _ _ Hrun1) as (outs & w1m & Hopt & _).
  apply optimize_csv_data_Ok_inv in Hopt as (b' & df & _ & Hb' & Hparse1 & _).
  rewrite Hin1 in Hb'. injection Hb' as <-.
  assert (Hparse2 : @read_csv_parse L2 b = Ok df) by (by rewrite <- Hparser).
  destruct (@main_0_files L1 _ _ _ _ _ Hin1 Hparse1 Hrun1)
    as (d & Hd & _ & Hdet1 & _ & _ & Hidx1).
  destruct (@main_0_files L2 _ _ _ _ _ Hin2 Hparse2 Hrun2)
    as (d2 & Hd2 & _ & Hdet2 & _ & _ & Hidx2).
  rewrite <- (detail_df_seeded L1 L2 _ _ Hseed), <- Hcap, Hd in Hd2.
  injection Hd2 as <-.
  assert (Hindex : index d = (@kept_rows L1 df (max_detail_rows a1)).*1).
  { apply (@detail_df_spec L1) in Hd as (_ & _ & Hrows).
    unfold index. rewrite Hrows, <- !list_fmap_compose. done. }
  exists df, d, (@index_mapping L1 df (table_df df) d),
    (@index_mapping L2 df (table_df df) d).
  split_and!; try done.
  - by rewrite <- (detail_df_seeded L1 L2 _ _ Hseed), <- Hcap.
  - by rewrite (@series_row_id_detail L1 _ _ _ Hd).
Qed.

(** ** The script on concrete inputs *)

(** Three rows whose texts are longer than the limits. *)
Definition long_text : string :=
  String.concat "" (replicate 150 "abcd").

Definition demo_cols : list string :=
  ["prompt"; "model"; "property_description"; "evidence"; "reason"; "other"].

Definition demo_row (i : Z) : row :=
  {[ "prompt" := Str "hi"; "model" := Str "m"; "property_description" := Str long_text;
     "evidence" := (if decide (i = 0) then Str long_text else NaN);
     "reason" := Int i; "other" := Bool true ]}.

Definition demo_rows : list row := [demo_row 0; demo_row 1; demo_row 2].

Definition demo_frame : DataFrame := frame_of demo_cols demo_rows.

(** The libraries with a working Parquet engine, with none, and with one
    that fails on the data. *)
Definition libs_ok : Libs := Demo.libs demo_frame None.
Definition libs_no_parquet : Libs := Demo.libs demo_frame (Some ModuleNotFoundError).
Definition libs_bad_parquet : Libs :=
  Demo.libs demo_frame (Some (LibraryError "ArrowInvalid")).

(** The libraries of a second process, whose sets enumerate in another
    order. *)
Definition libs_again : Libs := Demo.libs_insertion_order demo_frame None.

Definition demo_input : bytes := String.list_byte_of_string "x".

Definition demo_world : world :=
  {| fs := {[ ["data.csv"] := File demo_input ]}; stdout := [] |}.

Definition demo_args (out : string) (cap : Z) : args :=
  {| input_file := ["data.csv"]; output_dir := [out]; max_detail_rows := cap |}.

Definition frame_or_empty (r : result DataFrame) : DataFrame :=
  match r with
  | Ok d => d
  | Raise _ => {| columns := []; rows := [] |}
  end.

(** The detail frame under a cap of two rows, and the world after a run
    with that cap. *)
Definition demo_detail : DataFrame := frame_or_empty (@detail_df libs_ok demo_frame 2).

Definition demo_world_after : world := (@main libs_ok (demo_args "out" 2) demo_world).2.

Definition demo_table_row : row :=
  default ∅ (snd <$> rows (table_df demo_frame) !! 0%nat).








Lemma table_text_limits_witness :
  (∀ v, demo_table_row !! "property_description" = Some v →
        ∃ s, v = Str s ∧ (String.length s ≤ 500)%nat) ∧
  (∀ v, demo_table_row !! "evidence" = Some v →
        ∃ s, v = Str s ∧ (String.length s ≤ 300)%nat) ∧
  (String.length (csv_field (demo_table_row !! "property_description")) ≤ 500)%nat ∧
  (String.length (csv_field (demo_table_row !! "evidence")) ≤ 300)%nat.
Proof.
  apply (table_text_limits demo_frame (Int 0) demo_table_row).
  apply list_elem_of_lookup. exists 0%nat. vm_compute. reflexivity.
Defined.

Example demo_table_row_truncated :
  String.length long_text = 600%nat ∧
  String.length (csv_field (demo_table_row !! "property_description")) = 500%nat ∧
  String.length (csv_field (demo_table_row !! "evidence")) = 300%nat.
Proof. vm_compute. done. Qed.



Example demo_detail_row_ids : index demo_detail = [Int 2; Int 1].
Proof. vm_compute. reflexivity. Qed.


Example demo_row_id_mapping :
  json_get "row_id_mapping"
    (@index_mapping libs_ok demo_frame (table_df demo_frame) demo_detail)
  = Some (JList [JInt 2; JInt 1]).
Proof. vm_compute. reflexivity. Qed.



(** A second run, in another process, on the world the first one left and
    into another directory. *)
Definition demo_world_after2 : world :=
  (@main libs_again (demo_args "out2" 2) demo_world_after).2.

Lemma sampling_deterministic_witness :
  ∃ df d m1 m2,
    @read_csv_parse libs_ok demo_input = Ok df ∧
    @detail_df libs_ok df 2 = Ok d ∧
    @detail_df libs_again df 2 = Ok d ∧
    fs demo_world_after !! joinpath ["out"] "detail_data.csv"
      = Some (File (@csv_text libs_ok (csv_records d))) ∧
    fs demo_world_after2 !! joinpath ["out2"] "detail_data.csv"
      = Some (File (@csv_text libs_again (csv_records d))) ∧
    series d "row_id" = index d ∧
    index d = (@kept_rows libs_ok df 2).*1 ∧
    fs demo_world_after !! joinpath ["out"] "data_index.json"
      = Some (File (@json_text libs_ok m1)) ∧
    fs demo_world_after2 !! joinpath ["out2"] "data_index.json"
      = Some (File (@json_text libs_again m2)) ∧
    m1 = @index_mapping libs_ok df (table_df df) d ∧
    m2 = @index_mapping libs_again df (table_df df) d ∧
    json_get "detail_rows" m1 = json_get "detail_rows" m2 ∧
    json_get "row_id_mapping" m1 = json_get "row_id_mapping" m2.
Proof.
  apply (sampling_deterministic libs_ok libs_again (demo_args "out" 2) (demo_args "out2" 2)
           demo_world demo_world_after demo_world_after demo_world_after2 demo_input).
  - reflexivity.
  - reflexivity.
  - vm_compute. reflexivity.
  - vm_compute. reflexivity.
  - reflexivity.
  - vm_compute. reflexivity.
  - vm_compute. reflexivity.
Defined.

(** The two processes enumerate the set of detail columns in different
    orders, so the two manifests differ although the rows kept are the
    same. *)
Example demo_manifests_differ :
  fs demo_world_after !! joinpath ["out"] "data_index.json"
  ≠ fs demo_world_after2 !! joinpath ["out2"] "data_index.json" ∧
  fs demo_world_after !! joinpath ["out"] "detail_data.csv"
  = fs demo_world_after2 !! joinpath ["out2"] "detail_data.csv".
Proof. vm_compute. split; [discriminate | reflexivity]. Qed.

Lemma gzip_outputs_roundtrip_witness :
  ∃ csv gz,
    fs demo_world_after !! joinpath ["out"] "detail_data.csv" = Some (File csv) ∧
    fs demo_world_after !! joinpath ["out"] ("detail_data.csv" +:+ ".gz") = Some (File gz) ∧
    @gzip_decompress libs_ok gz = Some csv.
Proof.
  apply (@gzip_outputs_roundtrip libs_ok (demo_args "out" 2) demo_world demo_world_after
           "detail_data.csv").
  - vm_compute. reflexivity.
  - apply list_elem_of_In. simpl. tauto.
Defined.

Lemma missing_input_exit_1_witness :
  @main libs_ok {| input_file := ["absent.csv"]; output_dir := ["out"];
                   max_detail_rows := 10000 |} demo_world
  = (1, {| fs := fs demo_world;
           stdout := stdout demo_world ++ [MsgInputNotFound ["absent.csv"]] |}).
Proof.
  apply (@missing_input_exit_1 libs_ok
           {| input_file := ["absent.csv"]; output_dir := ["out"];
              max_detail_rows := 10000 |} demo_world).
  vm_compute. reflexivity.
Defined.

Ltac no_directory :=
  let p := fresh "p" in
  let Hp := fresh "Hp" in
  intros p Hp; apply list_elem_of_In in Hp; vm_compute in Hp;
  repeat (destruct Hp as [<-|Hp]; [vm_compute; discriminate|]);
  destruct Hp.

Lemma manifest_contents_witness :
  ∃ d manifest listed,
    @detail_df libs_ok demo_frame 2 = Ok d ∧
    fs demo_world_after !! joinpath ["out"] "data_index.json"
      = Some (File (@json_text libs_ok manifest)) ∧
    json_get "total_rows" manifest = Some (JInt (Z.of_nat (len demo_frame))) ∧
    json_get "table_rows" manifest = Some (JInt (Z.of_nat (len (table_df demo_frame)))) ∧
    len (table_df demo_frame) = len demo_frame ∧
    json_get "detail_rows" manifest = Some (JInt (Z.of_nat (len d))) ∧
    json_get "available_columns" manifest ≫= json_get "table"
      = Some (JList (JStr <$> filter (λ c, c ∈ columns demo_frame) TABLE_COLUMNS)) ∧
    json_get "available_columns" manifest ≫= json_get "detail"
      = Some (JList (JStr <$> listed)) ∧
    listed ≡ₚ filter (λ c, c ∈ columns demo_frame) TABLE_COLUMNS
              ++ filter (λ c, c ∈ columns demo_frame) DETAIL_COLUMNS ∧
    NoDup listed ∧
    columns (table_df demo_frame) = filter (λ c, c ∈ columns demo_frame) TABLE_COLUMNS ++ ["row_id"] ∧
    columns d = (filter (λ c, c ∈ columns demo_frame) TABLE_COLUMNS
                 ++ filter (λ c, c ∈ columns demo_frame) DETAIL_COLUMNS) ++ ["row_id"].
Proof.
  apply (@manifest_contents libs_ok (demo_args "out" 2) demo_world demo_world_after
           demo_input demo_frame).
  - vm_compute. reflexivity.
  - reflexivity.
  - vm_compute. reflexivity.
Defined.

(** The manifest of a completed run lists the detail columns in the order
    in which the set is enumerated, here the reverse of the order in which
    the detail frame was selected. *)
Lemma manifest_detail_order_counterexample :
  (@main libs_ok (demo_args "out" 2) demo_world).1 = 0 ∧
  fs demo_world_after !! joinpath ["out"] "data_index.json"
    = Some (File (@json_text libs_ok
                    (@index_mapping libs_ok demo_frame (table_df demo_frame) demo_detail))) ∧
  all_detail_cols demo_frame
    = ["prompt"; "model"; "property_description"; "evidence"; "reason"] ∧
  json_get "available_columns"
      (@index_mapping libs_ok demo_frame (table_df demo_frame) demo_detail)
    ≫= json_get "detail"
    = Some (JList (JStr <$> ["reason"; "evidence"; "property_description"; "model"; "prompt"])) ∧
  json_get "available_columns"
      (@index_mapping libs_ok demo_frame (table_df demo_frame) demo_detail)
    ≫= json_get "detail"
    ≠ Some (JList (JStr <$> all_detail_cols demo_frame)).
Proof. vm_compute. by repeat split. Qed.

Lemma parquet_unavailable_still_succeeds_witness :
  ∃ d w',
    @detail_df libs_no_parquet demo_frame 2 = Ok d ∧
    @main libs_no_parquet (demo_args "out" 2) demo_world = (0, w') ∧
    MsgParquetSkipped ∈ stdout w' ∧
    fs w' !! joinpath ["out"] "table_data.csv"
      = Some (File (@csv_text libs_no_parquet (csv_records (table_df demo_frame)))) ∧
    fs w' !! joinpath ["out"] "detail_data.csv"
      = Some (File (@csv_text libs_no_parquet (csv_records d))) ∧
    fs w' !! joinpath ["out"] "table_data.csv.gz"
      = Some (File (@gzip_compress libs_no_parquet
                      (@csv_text libs_no_parquet (csv_records (table_df demo_frame))))) ∧
    fs w' !! joinpath ["out"] "detail_data.csv.gz"
      = Some (File (@gzip_compress libs_no_parquet
                      (@csv_text libs_no_parquet (csv_records d)))) ∧
    fs w' !! joinpath ["out"] "data_index.json"
      = Some (File (@json_text libs_no_parquet
                      (@index_mapping libs_no_parquet demo_frame (table_df demo_frame) d))) ∧
    fs w' !! joinpath ["out"] "table_data.parquet"
      = fs demo_world !! joinpath ["out"] "table_data.parquet" ∧
    fs w' !! joinpath ["out"] "detail_data.parquet"
      = fs demo_world !! joinpath ["out"] "detail_data.parquet".
Proof.
  apply (@parquet_unavailable_still_succeeds libs_no_parquet (demo_args "out" 2)
           demo_world demo_input demo_frame ModuleNotFoundError).
  - vm_compute. reflexivity.
  - reflexivity.
  - right. split; vm_compute; reflexivity.
  - no_directory.
  - simpl. lia.
  - reflexivity.
  - reflexivity.
Defined.

Lemma parquet_error_leaves_no_manifest_witness :
  ∃ w',
    @main libs_bad_parquet (demo_args "out" 2) demo_world = (1, w') ∧
    last (stdout w') = Some (MsgError (LibraryError "ArrowInvalid")) ∧
    fs w' !! joinpath ["out"] "table_data.csv"
      = Some (File (@csv_text libs_bad_parquet (csv_records (table_df demo_frame)))) ∧
    fs w' !! joinpath ["out"] "detail_data.csv"
      = Some (File (@csv_text libs_bad_parquet (csv_records demo_detail))) ∧
    fs w' !! joinpath ["out"] "table_data.csv.gz"
      = Some (File (@gzip_compress libs_bad_parquet
                      (@csv_text libs_bad_parquet (csv_records (table_df demo_frame))))) ∧
    fs w' !! joinpath ["out"] "detail_data.csv.gz"
      = Some (File (@gzip_compress libs_bad_parquet
                      (@csv_text libs_bad_parquet (csv_records demo_detail)))) ∧
    fs w' !! joinpath ["out"] "data_index.json"
      = fs demo_world !! joinpath ["out"] "data_index.json".
Proof.
  apply (@parquet_error_leaves_no_manifest libs_bad_parquet (demo_args "out" 2)
           demo_world demo_input demo_frame demo_detail
           (LibraryError "ArrowInvalid")).
  - vm_compute. reflexivity.
  - reflexivity.
  - right. split; vm_compute; reflexivity.
  - vm_compute. reflexivity.
  - left. reflexivity.
  - reflexivity.
  - no_directory.
Defined.

(** ** Further properties of the script *)

Section more.
Context `{Libs}.

(** [main] leaves every path alone that is neither the output directory
    nor one of the seven files in it: in particular the input file, unless
    it is one of them. *)
Theorem main_touches_only_outputs (a : args) (w : world) (q : path) :
  q ∉ written_paths (output_dir a) →
  fs (main a w).2 !! q = fs w !! q.
Proof.
  intros Hq. unfold main, path_exists.
  destruct (bool_decide _); [|done].
  pose proof (touches_optimize (input_file a) (output_dir a) (max_detail_rows a) w q Hq)
    as Ht.
  by destruct (optimize_csv_data _ _ _ w) as [[outs|e] w1].
Qed.

Lemma main_exit_code a w : (main a w).1 = 0 ∨ (main a w).1 = 1.
Proof.
  unfold main, path_exists. destruct (bool_decide _); [|by right].
  destruct (optimize_csv_data _ _ _ w) as [[outs|e] w1]; auto.
Qed.

(** A negative cap never gives a completed run: whatever the world, the
    exit code is 1. *)
Theorem negative_cap_exit_1 (a : args) (w : world) :
  max_detail_rows a < 0 → (main a w).1 = 1.
Proof.
  intros Hneg. destruct (main_exit_code a w) as [H0|H1]; [|done].
  destruct (main a w) as [code w'] eqn:Hrun. simpl in H0. subst code.
  apply main_0_inv in Hrun as (outs & w1 & Hopt & _).
  apply optimize_csv_data_Ok_inv in Hopt as (b & df & d & _ & _ & Hd & _).
  apply detail_df_spec in Hd as [Hcap _]. lia.
Qed.

(** *** Failures before anything is written *)

Lemma read_csv_world p w : (read_csv p w).2 = w.
Proof.
  unfold read_csv, read_bytes, mbind, M_bind, lift.
  by destruct (node_at (fs w) p) as [[b|]|].
Qed.

Lemma mkdir_raise p w :
  ¬ creatable (fs w) p → ∃ e, mkdir_exist_ok p w = (Raise e, w).
Proof.
  unfold creatable, mkdir_exist_ok. intros Hn.
  destruct (node_at (fs w) p) as [[c|]|]; [by eauto | tauto |].
  destruct (node_at (fs w) (parent p)) as [[c|]|]; by eauto || tauto.
Qed.

Lemma optimize_uncreatable input out cap w :
  ¬ creatable (fs w) out →
  ∃ e w1, optimize_csv_data input out cap w = (Raise e, w1) ∧ fs w1 = fs w.
Proof.
  intros Hdir. unfold optimize_csv_data. rewrite bind_print.
  unfold mbind at 1, M_bind at 1.
  match goal with |- context [read_csv ?p ?W] =>
    pose proof (read_csv_world p W) as Hw;
    destruct (read_csv p W) as [[df|e] w1] end; simpl in Hw; subst w1;
    [|by eauto].
  rewrite bind_print. unfold mbind at 1, M_bind at 1.
  match goal with |- context [mkdir_exist_ok ?p ?W] =>
    destruct (mkdir_raise p W Hdir) as [e ->] end.
  by eauto.
Qed.

(** When the output directory cannot be made (the path is a regular file,
    or its parent is no directory) [main] exits with code 1 and the file
    system is as before. *)
Theorem uncreatable_output_dir (a : args) (w : world) :
  is_Some (node_at (fs w) (input_file a)) →
  ¬ creatable (fs w) (output_dir a) →
  (main a w).1 = 1 ∧ fs (main a w).2 = fs w.
Proof.
  intros [n Hn] Hdir.
  destruct (optimize_uncreatable (input_file a) (output_dir a) (max_detail_rows a) w Hdir)
    as (e & w1 & Hopt & Hfs).
  by rewrite (main_Raise _ _ _ _ _ Hn Hopt).
Qed.

Lemma optimize_read_fails input out cap w e :
  read_csv input {| fs := fs w; stdout := stdout w ++ [MsgReading input] |}
    = (Raise e, {| fs := fs w; stdout := stdout w ++ [MsgReading input] |}) →
  optimize_csv_data input out cap w
    = (Raise e, {| fs := fs w; stdout := stdout w ++ [MsgReading input] |}).
Proof.
  intros Hread. unfold optimize_csv_data. rewrite bind_print.
  unfold mbind at 1, M_bind at 1. by rewrite Hread.
Qed.

(** An input that does not parse: [main] prints the error, exits with
    code 1 and does not even make the output directory. *)
Theorem unparsable_input (a : args) (w : world) (b : bytes) (e : exn) :
  node_at (fs w) (input_file a) = Some (File b) →
  read_csv_parse b = Raise e →
  main a w = (1, {| fs := fs w;
                    stdout := (stdout w ++ [MsgReading (input_file a)]) ++ [MsgError e] |}).
Proof.
  intros Hin Hparse.
  assert (Hopt : optimize_csv_data (input_file a) (output_dir a) (max_detail_rows a) w
            = (Raise e, {| fs := fs w;
                           stdout := stdout w ++ [MsgReading (input_file a)] |})).
  { apply optimize_read_fails. unfold read_csv, read_bytes, mbind, M_bind, lift.
    cbn [fs]. by rewrite Hin, Hparse. }
  by rewrite (main_Raise _ _ _ _ _ Hin Hopt).
Qed.

(** An input path that is a directory passes the existence check, and
    reading it raises: exit code 1, nothing written. *)
Theorem directory_input (a : args) (w : world) :
  node_at (fs w) (input_file a) = Some Dir →
  main a w = (1, {| fs := fs w;
                    stdout := (stdout w ++ [MsgReading (input_file a)])
                              ++ [MsgError IsADirectoryError] |}).
Proof.
  intros Hin.
  assert (Hopt : optimize_csv_data (input_file a) (output_dir a) (max_detail_rows a) w
            = (Raise IsADirectoryError,
               {| fs := fs w; stdout := stdout w ++ [MsgReading (input_file a)] |})).
  { apply optimize_read_fails. unfold read_csv, read_bytes, mbind, M_bind.
    cbn [fs]. by rewrite Hin. }
  by rewrite (main_Raise _ _ _ _ _ Hin Hopt).
Qed.

(** *** What no run does to existing paths *)

(** Whether a path is a directory, a regular file, or absent. *)
Definition kind (n : option node) : option bool :=
  match n with
  | Some Dir => Some true
  | Some (File _) => Some false
  | None => None
  end.

(** A computation under which every existing path stays what it is. *)
Definition keeps {A} (m : M A) : Prop :=
  ∀ w q, is_Some (node_at (fs w) q) →
         kind (node_at (fs (m w).2) q) = kind (node_at (fs w) q).

Lemma keeps_pure {A} (m : M A) : (∀ w, fs (m w).2 = fs w) → keeps m.
Proof. intros Hm w q _. by rewrite Hm. Qed.

Lemma keeps_mret {A} (a : A) : keeps (mret a).
Proof. by apply keeps_pure. Qed.

Lemma keeps_lift {A} (r : result A) : keeps (lift r).
Proof. by apply keeps_pure. Qed.

Lemma keeps_print m : keeps (print m).
Proof. by apply keeps_pure. Qed.

Lemma keeps_truediv a b : keeps (truediv a b).
Proof. apply keeps_pure. intros w. unfold truediv. by destruct b. Qed.

Lemma keeps_read_bytes p : keeps (read_bytes p).
Proof.
  apply keeps_pure. intros w. unfold read_bytes.
  by destruct (node_at (fs w) p) as [[c|]|].
Qed.

Lemma keeps_st_size p : keeps (st_size p).
Proof.
  apply keeps_pure. intros w. unfold st_size.
  by destruct (node_at (fs w) p) as [[c|]|].
Qed.

Lemma keeps_write_bytes p b : keeps (write_bytes p b).
Proof.
  intros w q Hq. unfold write_bytes.
  destruct (node_at (fs w) p) as [[c|]|] eqn:Hp; [|done|];
    (destruct (node_at (fs w) (parent p)) as [[c'|]|]; [done| |done]).
  all: cbn [snd fs with_fs]; destruct (decide (q = p)) as [->|Hne];
    [|by rewrite node_at_insert_ne].
  - rewrite Hp, node_at_insert_eq; [done|]. by intros ->.
  - rewrite Hp in Hq. by destruct Hq.
Qed.

Lemma keeps_mkdir p : keeps (mkdir_exist_ok p).
Proof.
  intros w q Hq. unfold mkdir_exist_ok.
  destruct (node_at (fs w) p) as [[c|]|] eqn:Hp; [done|done|].
  destruct (node_at (fs w) (parent p)) as [[c'|]|]; [done| |done].
  cbn [snd fs with_fs]. rewrite node_at_insert_ne; [done|].
  intros ->. rewrite Hp in Hq. by destruct Hq.
Qed.

Lemma kind_is_Some n m : kind n = kind m → is_Some m → is_Some n.
Proof. destruct n as [[?|]|], m as [[?|]|]; by intros [=] [? ?]. Qed.

Lemma keeps_bind {A B} (m : M A) (k : A → M B) :
  keeps m → (∀ a, keeps (k a)) → keeps (m ≫= k).
Proof.
  intros Hm Hk w q Hq. unfold mbind, M_bind.
  specialize (Hm w q Hq). destruct (m w) as [[a|e] w1]; simpl in *; [|done].
  rewrite <- Hm. apply Hk. by eapply kind_is_Some.
Qed.

Lemma keeps_try {A} (body handler : M A) :
  keeps body → keeps handler → keeps (try_except_ImportError body handler).
Proof.
  intros Hb Hh w q Hq. unfold try_except_ImportError.
  specialize (Hb w q Hq). destruct (body w) as [[a|e] w1]; simpl in *; [done|].
  destruct (is_ImportError e); simpl; [|done].
  rewrite <- Hb. apply Hh. by eapply kind_is_Some.
Qed.

Lemma keeps_if {A} (P : Prop) `{Decision P} (m1 m2 : M A) :
  keeps m1 → keeps m2 → keeps (if decide P then m1 else m2).
Proof. by case_decide. Qed.

Ltac keeps :=
  repeat first
    [ apply keeps_bind; [|intros]
    | apply keeps_try
    | apply keeps_if
    | apply keeps_mret | apply keeps_lift | apply keeps_print | apply keeps_truediv
    | apply keeps_read_bytes | apply keeps_st_size | apply keeps_write_bytes
    | apply keeps_mkdir
    | match goal with |- keeps (let '(_, _) := ?x in _) => destruct x end ].

Lemma keeps_optimize input out cap : keeps (optimize_csv_data input out cap).
Proof.
  unfold optimize_csv_data, read_csv, to_csv, gzip_file, to_parquet, json_dump.
  keeps.
Qed.

(** No run of [main] removes anything or changes what a path is: a
    directory stays a directory and a regular file stays a regular file. *)
Theorem main_keeps_paths (a : args) (w : world) (q : path) :
  is_Some (node_at (fs w) q) →
  kind (node_at (fs (main a w).2) q) = kind (node_at (fs w) q).
Proof.
  intros Hq. unfold main, path_exists.
  destruct (bool_decide _); [|done].
  pose proof (keeps_optimize (input_file a) (output_dir a) (max_detail_rows a) w q Hq)
    as Hk.
  by destruct (optimize_csv_data _ _ _ w) as [[outs|e] w1].
Qed.

Lemma mkdir_Ok_dir p w u w1 :
  mkdir_exist_ok p w = (Ok u, w1) → node_at (fs w1) p = Some Dir.
Proof.
  unfold mkdir_exist_ok.
  destruct (node_at (fs w) p) as [[c|]|] eqn:Hp; [done | by intros [= _ <-] |].
  destruct (node_at (fs w) (parent p)) as [[c'|]|]; [done| |done].
  intros [= _ <-]. cbn [fs with_fs]. apply node_at_insert_eq.
  by intros ->.
Qed.

(** When [optimize_csv_data] returns, it returns the paths of the two CSV
    files, the two gzip files and the manifest (not those of the Parquet
    files); each of them is then a regular file and the output directory
    is a directory. *)
Theorem optimize_csv_data_returns (input out : path) (cap : Z) (w w' : world)
    (outs : outputs) :
  optimize_csv_data input out cap w = (Ok outs, w') →
  outs = {| table_file := joinpath out "table_data.csv";
            detail_file := joinpath out "detail_data.csv";
            table_compressed := joinpath out "table_data.csv.gz";
            detail_compressed := joinpath out "detail_data.csv.gz";
            index_file := joinpath out "data_index.json" |} ∧
  node_at (fs w') out = Some Dir ∧
  Forall (λ p, ∃ c, fs w' !! p = Some (File c))
    [table_file outs; detail_file outs; table_compressed outs;
     detail_compressed outs; index_file outs].
Proof.
  intros Hrun.
  assert (Houts : outs = {| table_file := joinpath out "table_data.csv";
            detail_file := joinpath out "detail_data.csv";
            table_compressed := joinpath out "table_data.csv.gz";
            detail_compressed := joinpath out "detail_data.csv.gz";
            index_file := joinpath out "data_index.json" |}).
  { pose proof Hrun as Hr. unfold optimize_csv_data in Hr.
    repeat (apply bind_Ok_inv in Hr as (? & ? & _ & Hr); cbn beta zeta in Hr).
    by apply mret_Ok_inv in Hr as [<- _]. }
  split; [done|]. split.
  - pose proof Hrun as Hr. unfold optimize_csv_data in Hr.
    do 3 (apply bind_Ok_inv in Hr as (? & ? & _ & Hr); cbn beta zeta in Hr).
    apply bind_Ok_inv in Hr as (? & w4 & Hmk%mkdir_Ok_dir & Hr).
    match type of Hr with ?m _ = _ => assert (Hk : keeps m) by keeps end.
    specialize (Hk w4 out). rewrite Hr, Hmk in Hk. cbn [snd] in Hk.
    specialize (Hk ltac:(done)).
    by destruct (node_at (fs w') out) as [[c|]|].
  - apply optimize_csv_data_Ok_inv in Hrun
      as (b & df & d & _ & _ & _ & Ht & Hd & Htz & Hdz & Hi).
    subst outs. cbn [table_file detail_file table_compressed detail_compressed index_file].
    repeat (constructor; [by eauto|]). constructor.
Qed.

(** *** Partial and full outputs *)

Ltac stepping tac := etrans; [apply bind_Ok; tac|]; cbn beta; cbn [fs stdout with_fs].

(** With a negative cap the run has already written the table file when
    the sampling raises: exit code 1, the table file in place, and nothing
    else written but the output directory. *)
Theorem negative_cap_writes_table_only (a : args) (w : world) (b : bytes)
    (df : DataFrame) :
  let out := output_dir a in
  node_at (fs w) (input_file a) = Some (File b) →
  read_csv_parse b = Ok df →
  creatable (fs w) out →
  fs w !! joinpath out "table_data.csv" ≠ Some Dir →
  max_detail_rows a < 0 →
  ∃ w', main a w = (1, w') ∧
    last (stdout w') = Some (MsgError ValueError) ∧
    fs w' !! joinpath out "table_data.csv"
      = Some (File (csv_text (csv_records (table_df df)))) ∧
    ∀ q, q ≠ out → q ≠ joinpath out "table_data.csv" → fs w' !! q = fs w !! q.
Proof.
  intros out Hin Hparse Hdir Hfile Hneg.
  destruct (mkdir_fwd out
    {| fs := fs w;
       stdout := (stdout w ++ [MsgReading (input_file a)]) ++
         [MsgLoaded (len df) (length (columns df))] |} Hdir)
    as (t & Hmk & Hout & Ht & _).
  cbn [fs] in Ht.
  eassert (Hopt : optimize_csv_data (input_file a) out (max_detail_rows a) w
                  = (Raise ValueError, _)).
  { unfold optimize_csv_data.
    rewrite bind_print.
    stepping ltac:(by eapply read_csv_fwd).
    rewrite bind_print.
    stepping ltac:(exact Hmk).
    rewrite bind_print.
    stepping ltac:(apply write_bytes_fwd; cbn [fs with_fs];
                   [ rewrite node_at_joinpath, Ht by paths_differ; exact Hfile
                   | rewrite parent_joinpath; exact Hout ]).
    rewrite !bind_print.
    rewrite decide_True by (rewrite len_getitem; lia).
    unfold mbind at 1, M_bind at 1. rewrite bind_print.
    unfold lift, sample. rewrite decide_True by lia. reflexivity. }
  eexists. split; [by eapply main_Raise|]. cbn [fs stdout with_fs].
  split; [apply last_snoc|]. split.
  - by rewrite lookup_insert_eq.
  - intros q Hq1 Hq2. rewrite lookup_insert_ne by done. by apply Ht.
Qed.

(** With a working Parquet engine, from a world in which nothing else
    fails, both Parquet files are written with what the engine encodes,
    the run reports it and exits with code 0. *)
Theorem parquet_files_written (a : args) (w : world) (b : bytes)
    (df d : DataFrame) (bt bd : bytes) :
  let out := output_dir a in
  node_at (fs w) (input_file a) = Some (File b) →
  read_csv_parse b = Ok df →
  creatable (fs w) out →
  detail_df df (max_detail_rows a) = Ok d →
  parquet_encode (table_df df) = Ok bt →
  parquet_encode d = Ok bd →
  (∀ p, p ∈ guaranteed_files out
            ++ [joinpath out "table_data.parquet"; joinpath out "detail_data.parquet"] →
        fs w !! p ≠ Some Dir) →
  ∃ w', main a w = (0, w') ∧
    MsgParquetCreated ∈ stdout w' ∧
    fs w' !! joinpath out "table_data.parquet" = Some (File bt) ∧
    fs w' !! joinpath out "detail_data.parquet" = Some (File bd) ∧
    fs w' !! joinpath out "data_index.json"
      = Some (File (json_text (index_mapping df (table_df df) d))).
Proof.
  intros out Hin Hparse Hdir Hd Hbt Hbd Hfiles.
  assert (Ho : parquet_outcome_of (table_df df) d = PqDone bt bd)
    by (unfold parquet_outcome_of; by rewrite Hbt, Hbd).
  destruct (optimize_csv_data_ready (input_file a) out (max_detail_rows a) w b df d)
    as (t & Ht & r & w1 & Hrun & Hmsgs & Hend); try done.
  { rewrite Ho. intros p Hp. apply Hfiles.
    unfold needed_files, guaranteed_files, csv_gzip_files in *. simpl in Hp |- *.
    rewrite ?elem_of_app, ?elem_of_cons in Hp |- *. tauto. }
  rewrite Ho in Hmsgs, Hend. simpl in Hmsgs, Hend.
  destruct Hend as [[outs ->] Hfs].
  eexists. split; [by eapply main_Ok|]. cbn [fs stdout]. split.
  { rewrite !elem_of_app. left. left. apply Hmsgs. set_solver. }
  rewrite Hfs. split_and!.
  all: rewrite ?lookup_insert_ne by paths_differ; by rewrite lookup_insert_eq.
Qed.

(** *** The manifest and the frames *)

(** The detail frame never has more rows than the data, the table frame
    has as many, and the manifest's [row_id_mapping] is null exactly when
    the detail frame has all the rows. *)
Theorem manifest_mapping_null_iff (df : DataFrame) (cap : Z) (d : DataFrame) :
  detail_df df cap = Ok d →
  (len d ≤ len df)%nat ∧
  len (table_df df) = len df ∧
  (json_get "row_id_mapping" (index_mapping df (table_df df) d) = Some JNull
   ↔ len d = len df).
Proof.
  intros Hd. pose proof (len_detail_df _ _ _ Hd) as Hlen.
  apply detail_df_spec in Hd as (Hcap & _ & _).
  assert (Hle : (len d ≤ len df)%nat) by (case_decide; lia).
  split; [done|]. split; [apply len_table_df|].
  unfold index_mapping, json_get. simpl assoc.
  destruct (decide (len d < len df)%nat); split; intros; try done; lia.
Qed.

Lemma str_slice_short k s : (String.length s ≤ k)%nat → str_slice k s = s.
Proof.
  revert k. induction s as [|c s IH]; intros [|k] Hk; simpl in *; try done; try lia.
  f_equal. apply IH. lia.
Qed.

Lemma str_slice_length_min k s :
  String.length (str_slice k s) = (k `min` String.length s)%nat.
Proof.
  revert s. induction k as [|k IH]; intros [|c s]; simpl; try done.
  by rewrite IH.
Qed.

Lemma str_slice_prefix k s : ∃ rest, s = str_slice k s +:+ rest.
Proof.
  revert s. induction k as [|k IH]; intros [|c s]; try by eexists.
  destruct (IH s) as [rest Hrest]. exists rest.
  change (String c s = String c (str_slice k s +:+ rest)). by f_equal.
Qed.

#[local] Opaque str_slice.

Lemma available_table_cols_elem df c :
  c ∈ available_table_cols df ↔ c ∈ TABLE_COLUMNS ∧ c ∈ columns df.
Proof. unfold available_table_cols. rewrite list_elem_of_filter. tauto. Qed.

Lemma all_detail_cols_elem df c :
  c ∈ all_detail_cols df ↔ (c ∈ TABLE_COLUMNS ∨ c ∈ DETAIL_COLUMNS) ∧ c ∈ columns df.
Proof.
  unfold all_detail_cols. rewrite elem_of_app, available_table_cols_elem,
    list_elem_of_filter. tauto.
Qed.

Lemma filter_lookup_in (cs : list string) (r : row) c :
  c ∈ cs → filter (λ kv, kv.1 ∈ cs) r !! c = r !! c.
Proof.
  intros Hc. rewrite map_lookup_filter. destruct (r !! c) as [v|]; simpl; [|done].
  by rewrite option_guard_True.
Qed.

(** A text of the data under [property_description] (or [evidence]) is
    cut to its first 500 (or 300) characters in the table frame, and kept
    as it is when it is no longer than that. *)
Theorem table_text_truncation (df : DataFrame) (k : nat) (l : cell)
    (r0 : row) (c : string) (limit : nat) (s : string) :
  (c, limit) ∈ [("property_description", 500%nat); ("evidence", 300%nat)] →
  c ∈ columns df →
  rows df !! k = Some (l, r0) →
  r0 !! c = Some (Str s) →
  ∃ r, rows (table_df df) !! k = Some (l, r) ∧
       r !! c = Some (Str (str_slice limit s)) ∧
       String.length (str_slice limit s) = (limit `min` String.length s)%nat ∧
       ((String.length s ≤ limit)%nat → r !! c = Some (Str s)) ∧
       ∃ rest, s = str_slice limit s +:+ rest.
Proof.
  intros Hc Hcols Hk Hs.
  exists (table_row df (l, r0)).2.
  assert (Hval : (table_row df (l, r0)).2 !! c = Some (Str (str_slice limit s))).
  { unfold table_row. cbn [fst snd].
    set (r1 := <["row_id" := l]> _).
    assert (Hr1 : ∀ c', c' ∈ available_table_cols df → r1 !! c' = r0 !! c').
    { intros c' Hc'. subst r1. rewrite lookup_insert_ne
        by (intros <-; by apply (row_id_not_available df)).
      by apply filter_lookup_in. }
    rewrite !elem_of_cons, elem_of_nil in Hc.
    destruct Hc as [[= -> ->]|[[= -> ->]|[]]].
    - assert (Hin : "property_description" ∈ available_table_cols df)
        by (apply available_table_cols_elem; split; [compute_done | done]).
      rewrite (decide_True _ _ Hin).
      destruct (decide ("evidence" ∈ _)); rewrite ?lookup_insert_ne by done;
        by rewrite lookup_insert_eq, Hr1, Hs.
    - assert (Hin : "evidence" ∈ available_table_cols df)
        by (apply available_table_cols_elem; split; [compute_done | done]).
      rewrite (decide_True _ _ Hin), lookup_insert_eq.
      destruct (decide ("property_description" ∈ _));
        rewrite ?lookup_insert_ne by done; by rewrite Hr1, Hs. }
  split_and!.
  - apply table_df_lookup. eauto.
  - done.
  - apply str_slice_length_min.
  - intros Hle. by rewrite Hval, str_slice_short.
  - apply str_slice_prefix.
Qed.

(** Neither frame has a column outside the allow-lists and [row_id], nor
    a column the data does not have, and no row holds a value under a
    name that is not a column of its frame. *)
Theorem only_allowed_columns (df : DataFrame) (cap : Z) (d : DataFrame) :
  detail_df df cap = Ok d →
  (∀ c, c ∈ columns (table_df df) →
        c = "row_id" ∨ (c ∈ TABLE_COLUMNS ∧ c ∈ columns df)) ∧
  (∀ l r c, (l, r) ∈ rows (table_df df) → is_Some (r !! c) →
        c ∈ columns (table_df df)) ∧
  (∀ c, c ∈ columns d →
        c = "row_id" ∨ ((c ∈ TABLE_COLUMNS ∨ c ∈ DETAIL_COLUMNS) ∧ c ∈ columns df)) ∧
  (∀ l r c, (l, r) ∈ rows d → is_Some (r !! c) → c ∈ columns d).
Proof.
  intros Hd. destruct (table_df_spec df) as [Hcols Hrows].
  apply detail_df_spec in Hd as (_ & Hdcols & Hdrows).
  rewrite Hcols, Hrows, Hdcols, Hdrows. split_and!.
  - intros c [Hc%available_table_cols_elem|Hc%list_elem_of_singleton]%elem_of_app; auto.
  - intros l r c ([l0 r0] & Heq & _)%list_elem_of_fmap Hsome.
    assert (r = (table_row df (l0, r0)).2) as -> by exact (f_equal snd Heq).
    rewrite elem_of_app, list_elem_of_singleton.
    destruct (decide (c = "row_id")) as [|Hne]; [by right|left].
    destruct (decide (c ∈ available_table_cols df)) as [|Hnin]; [done|].
    exfalso. revert Hsome. unfold table_row. cbn [fst snd].
    repeat case_decide;
      rewrite ?lookup_insert_ne by (intros <-; contradiction);
      rewrite filter_lookup_not_in by done; by intros [? ?].
  - intros c [Hc%all_detail_cols_elem|Hc%list_elem_of_singleton]%elem_of_app; auto.
  - intros l r c ([l0 r0] & Heq & _)%list_elem_of_fmap Hsome.
    assert (r = (detail_row df (l0, r0)).2) as -> by exact (f_equal snd Heq).
    rewrite elem_of_app, list_elem_of_singleton.
    destruct (decide (c = "row_id")) as [|Hne]; [by right|left].
    destruct (decide (c ∈ all_detail_cols df)) as [|Hnin]; [done|].
    exfalso. revert Hsome. unfold detail_row. cbn [fst snd].
    rewrite lookup_insert_ne by done. rewrite filter_lookup_not_in by done.
    by intros [? ?].
Qed.

(** *** The rows kept *)

(** The positions of the rows [sample] or the whole frame keeps. *)
Definition kept_positions (n : nat) (cap : Z) : list nat :=
  if decide (cap < Z.of_nat n)
  then take (Z.to_nat cap) (RandomState_permutation 42 n)
  else seq 0 n.

Lemma omap_fmap {A B C} (f : B → option C) (g : A → B) (l : list A) :
  omap f (g <$> l) = omap (λ x, f (g x)) l.
Proof.
  induction l as [|x l IH]; [done|]. csimpl. by rewrite IH.
Qed.

Lemma omap_lookup_seq {A} (l : list A) :
  omap (λ i, l !! i) (seq 0 (length l)) = l.
Proof.
  induction l as [|x l IH]; [done|].
  cbn [length seq]. csimpl. f_equal.
  rewrite <- fmap_S_seq, omap_fmap. exact IH.
Qed.

Lemma fmap_omap_lookup {A B} (f : A → B) (l : list A) (idxs : list nat) :
  f <$> omap (λ i, l !! i) idxs = omap (λ i, (f <$> l) !! i) idxs.
Proof.
  induction idxs as [|i idxs IH]; [done|]. csimpl.
  rewrite list_lookup_fmap. destruct (l !! i); csimpl; by rewrite IH.
Qed.

Lemma NoDup_omap_lookup {A} (l : list A) (idxs : list nat) :
  NoDup l → NoDup idxs → NoDup (omap (λ i, l !! i) idxs).
Proof.
  intros Hl. induction 1 as [|i idxs Hi Hidxs IH]; csimpl; [constructor|].
  destruct (l !! i) as [x|] eqn:Hx; [|done].
  constructor; [|done].
  intros (j & Hj & Hjx)%list_elem_of_omap.
  by rewrite (NoDup_lookup l i j x Hl Hx Hjx) in Hi.
Qed.

Lemma kept_positions_spec n cap :
  NoDup (kept_positions n cap) ∧ Forall (λ i, i < n)%nat (kept_positions n cap).
Proof.
  unfold kept_positions. case_decide.
  - split.
    + eapply sublist_NoDup; [|apply sublist_take].
      rewrite (permutation_perm 42 n). apply NoDup_seq.
    + apply Forall_take, permutation_bound.
  - split; [apply NoDup_seq|]. apply Forall_forall. intros i Hi%elem_of_seq. lia.
Qed.

Lemma kept_rows_positions df cap :
  kept_rows df cap = omap (λ i, rows df !! i) (kept_positions (len df) cap).
Proof.
  unfold kept_rows, kept_positions. case_decide; [done|].
  symmetry. apply omap_lookup_seq.
Qed.

Lemma omap_lookup_fmap_seq {A} (f : nat → A) (n : nat) (idxs : list nat) :
  Forall (λ i, i < n)%nat idxs →
  omap (λ i, (f <$> seq 0 n) !! i) idxs = f <$> idxs.
Proof.
  induction 1 as [|i idxs Hi _ IH]; [done|]. csimpl.
  rewrite list_lookup_fmap, lookup_seq_lt by done. csimpl. by rewrite IH.
Qed.

(** The detail rows are made from the rows of the data at the first [cap]
    entries of the seeded permutation when the data has more than [cap]
    rows, and from all the rows in order otherwise; in either case no
    position is taken twice.  The identifier of a detail row is the index
    label of the row at its position, so the identifiers are distinct
    whenever the index labels of the data are; under the default index
    they are the positions themselves. *)
Theorem detail_row_ids_distinct (df : DataFrame) (cap : Z) (d : DataFrame) :
  detail_df df cap = Ok d →
  let picked := kept_positions (len df) cap in
  picked = (if decide (cap < Z.of_nat (len df))
            then take (Z.to_nat cap) (RandomState_permutation 42 (len df))
            else seq 0 (len df)) ∧
  NoDup picked ∧
  Forall (λ i, i < len df)%nat picked ∧
  rows d = detail_row df <$> omap (λ i, rows df !! i) picked ∧
  index d = omap (λ i, index df !! i) picked ∧
  series d "row_id" = index d ∧
  (NoDup (index df) → NoDup (index d)) ∧
  (∀ cols rs, df = frame_of cols rs →
     index d = (λ i, Int (Z.of_nat i)) <$> picked ∧ NoDup (index d)).
Proof.
  intros Hd picked.
  pose proof (series_row_id_detail _ _ _ Hd) as Hseries.
  apply detail_df_spec in Hd as (Hcap & _ & Hrows).
  destruct (kept_positions_spec (len df) cap) as [Hnodup Hbound]. fold picked in Hnodup, Hbound.
  assert (Hindex : index d = omap (λ i, index df !! i) picked).
  { unfold index. rewrite Hrows, <- list_fmap_compose.
    transitivity ((kept_rows df cap).*1); [by apply list_fmap_ext|].
    rewrite kept_rows_positions. apply fmap_omap_lookup. }
  split_and!; try done.
  - by rewrite Hrows, kept_rows_positions.
  - by rewrite Hseries, Hindex, kept_rows_positions, fmap_omap_lookup.
  - intros Hlabels. rewrite Hindex. by apply NoDup_omap_lookup.
  - intros cols rs Hdf.
    assert (Hpos : index d = (λ i, Int (Z.of_nat i)) <$> picked).
    { rewrite Hindex. subst df. rewrite index_frame_of.
      apply omap_lookup_fmap_seq. by rewrite len_frame_of in Hbound. }
    split; [done|]. rewrite Hpos. apply NoDup_fmap_2; [|done].
    intros x y [= ?]. lia.
Qed.

End more.

(** *** The further properties on concrete inputs *)

Ltac not_listed :=
  let Hin := fresh "Hin" in
  intros Hin; apply list_elem_of_In in Hin; vm_compute in Hin;
  repeat (destruct Hin as [Hin|Hin]; [discriminate Hin|]);
  destruct Hin.

Lemma main_touches_only_outputs_witness :
  fs (@main libs_ok (demo_args "out" 2) demo_world).2 !! ["data.csv"]
  = fs demo_world !! ["data.csv"].
Proof.
  apply (@main_touches_only_outputs libs_ok (demo_args "out" 2) demo_world ["data.csv"]).
  not_listed.
Defined.

Lemma negative_cap_exit_1_witness :
  (@main libs_ok (demo_args "out" (-1)) demo_world).1 = 1.
Proof.
  apply (@negative_cap_exit_1 libs_ok (demo_args "out" (-1)) demo_world).
  simpl. lia.
Defined.

(** A world in which the output path is taken by a regular file, one whose
    input is empty, and one whose input path is a directory. *)
Definition demo_world_blocked : world :=
  {| fs := {[ ["data.csv"] := File demo_input; ["out"] := File [] ]}; stdout := [] |}.

Definition demo_world_empty : world :=
  {| fs := {[ ["data.csv"] := File [] ]}; stdout := [] |}.

Definition demo_world_dir : world :=
  {| fs := {[ ["data.csv"] := Dir ]}; stdout := [] |}.

Lemma uncreatable_output_dir_witness :
  (@main libs_ok (demo_args "out" 2) demo_world_blocked).1 = 1 ∧
  fs (@main libs_ok (demo_args "out" 2) demo_world_blocked).2 = fs demo_world_blocked.
Proof.
  apply (@uncreatable_output_dir libs_ok (demo_args "out" 2) demo_world_blocked).
  - eexists. vm_compute. reflexivity.
  - unfold creatable. vm_compute. intros [Hd|[Hn _]]; discriminate.
Defined.

Lemma unparsable_input_witness :
  @main libs_ok (demo_args "out" 2) demo_world_empty
  = (1, {| fs := fs demo_world_empty;
           stdout := (stdout demo_world_empty ++ [MsgReading ["data.csv"]])
                     ++ [MsgError EmptyDataError] |}).
Proof.
  apply (@unparsable_input libs_ok (demo_args "out" 2) demo_world_empty [] EmptyDataError).
  - vm_compute. reflexivity.
  - reflexivity.
Defined.

Lemma directory_input_witness :
  @main libs_ok (demo_args "out" 2) demo_world_dir
  = (1, {| fs := fs demo_world_dir;
           stdout := (stdout demo_world_dir ++ [MsgReading ["data.csv"]])
                     ++ [MsgError IsADirectoryError] |}).
Proof.
  apply (@directory_input libs_ok (demo_args "out" 2) demo_world_dir).
  vm_compute. reflexivity.
Defined.

Lemma main_keeps_paths_witness :
  kind (node_at (fs (@main libs_ok (demo_args "out" 2) demo_world_after).2) ["out"])
  = kind (node_at (fs demo_world_after) ["out"]).
Proof.
  apply (@main_keeps_paths libs_ok (demo_args "out" 2) demo_world_after ["out"]).
  eexists. vm_compute. reflexivity.
Defined.

Definition demo_outputs : outputs :=
  {| table_file := ["out"; "table_data.csv"];
     detail_file := ["out"; "detail_data.csv"];
     table_compressed := ["out"; "table_data.csv.gz"];
     detail_compressed := ["out"; "detail_data.csv.gz"];
     index_file := ["out"; "data_index.json"] |}.

Definition demo_world_returned : world :=
  (@optimize_csv_data libs_ok ["data.csv"] ["out"] 2 demo_world).2.

Lemma optimize_csv_data_returns_witness :
  demo_outputs = {| table_file := joinpath ["out"] "table_data.csv";
                    detail_file := joinpath ["out"] "detail_data.csv";
                    table_compressed := joinpath ["out"] "table_data.csv.gz";
                    detail_compressed := joinpath ["out"] "detail_data.csv.gz";
                    index_file := joinpath ["out"] "data_index.json" |} ∧
  node_at (fs demo_world_returned) ["out"] = Some Dir ∧
  Forall (λ p, ∃ c, fs demo_world_returned !! p = Some (File c))
    [table_file demo_outputs; detail_file demo_outputs; table_compressed demo_outputs;
     detail_compressed demo_outputs; index_file demo_outputs].
Proof.
  apply (@optimize_csv_data_returns libs_ok ["data.csv"] ["out"] 2 demo_world
           demo_world_returned demo_outputs).
  vm_compute. reflexivity.
Defined.

Lemma negative_cap_writes_table_only_witness :
  ∃ w', @main libs_ok (demo_args "out" (-1)) demo_world = (1, w') ∧
    last (stdout w') = Some (MsgError ValueError) ∧
    fs w' !! joinpath ["out"] "table_data.csv"
      = Some (File (@csv_text libs_ok (csv_records (table_df demo_frame)))) ∧
    ∀ q, q ≠ ["out"] → q ≠ joinpath ["out"] "table_data.csv" →
         fs w' !! q = fs demo_world !! q.
Proof.
  apply (@negative_cap_writes_table_only libs_ok (demo_args "out" (-1)) demo_world
           demo_input demo_frame).
  - vm_compute. reflexivity.
  - reflexivity.
  - right. split; vm_compute; reflexivity.
  - vm_compute. discriminate.
  - simpl. lia.
Defined.

Lemma parquet_files_written_witness :
  ∃ w', @main libs_ok (demo_args "out" 2) demo_world = (0, w') ∧
    MsgParquetCreated ∈ stdout w' ∧
    fs w' !! joinpath ["out"] "table_data.parquet"
      = Some (File (String.list_byte_of_string "PAR1")) ∧
    fs w' !! joinpath ["out"] "detail_data.parquet"
      = Some (File (String.list_byte_of_string "PAR1")) ∧
    fs w' !! joinpath ["out"] "data_index.json"
      = Some (File (@json_text libs_ok
                      (@index_mapping libs_ok demo_frame (table_df demo_frame) demo_detail))).
Proof.
  apply (@parquet_files_written libs_ok (demo_args "out" 2) demo_world demo_input
           demo_frame demo_detail).
  - vm_compute. reflexivity.
  - reflexivity.
  - right. split; vm_compute; reflexivity.
  - vm_compute. reflexivity.
  - reflexivity.
  - reflexivity.
  - no_directory.
Defined.

Lemma manifest_mapping_null_iff_witness :
  (len demo_detail ≤ len demo_frame)%nat ∧
  len (table_df demo_frame) = len demo_frame ∧
  (json_get "row_id_mapping"
     (@index_mapping libs_ok demo_frame (table_df demo_frame) demo_detail) = Some JNull
   ↔ len demo_detail = len demo_frame).
Proof.
  apply (@manifest_mapping_null_iff libs_ok demo_frame 2 demo_detail).
  vm_compute. reflexivity.
Defined.

Lemma table_text_truncation_witness :
  ∃ r, rows (table_df demo_frame) !! 0%nat = Some (Int 0, r) ∧
       r !! "evidence" = Some (Str (str_slice 300 long_text)) ∧
       String.length (str_slice 300 long_text) = (300 `min` String.length long_text)%nat ∧
       ((String.length long_text ≤ 300)%nat → r !! "evidence" = Some (Str long_text)) ∧
       ∃ rest, long_text = str_slice 300 long_text +:+ rest.
Proof.
  apply (table_text_truncation demo_frame 0 (Int 0) (demo_row 0) "evidence" 300 long_text).
  - apply list_elem_of_In. simpl. tauto.
  - apply list_elem_of_In. simpl. tauto.
  - reflexivity.
  - vm_compute. reflexivity.
Defined.

Lemma only_allowed_columns_witness :
  (∀ c, c ∈ columns (table_df demo_frame) →
        c = "row_id" ∨ (c ∈ TABLE_COLUMNS ∧ c ∈ columns demo_frame)) ∧
  (∀ l r c, (l, r) ∈ rows (table_df demo_frame) → is_Some (r !! c) →
        c ∈ columns (table_df demo_frame)) ∧
  (∀ c, c ∈ columns demo_detail →
        c = "row_id" ∨ ((c ∈ TABLE_COLUMNS ∨ c ∈ DETAIL_COLUMNS) ∧ c ∈ columns demo_frame)) ∧
  (∀ l r c, (l, r) ∈ rows demo_detail → is_Some (r !! c) → c ∈ columns demo_detail).
Proof.
  apply (@only_allowed_columns libs_ok demo_frame 2 demo_detail).
  vm_compute. reflexivity.
Defined.

Lemma detail_row_ids_distinct_witness :
  let picked := @kept_positions libs_ok (len demo_frame) 2 in
  picked = (if decide (2 < Z.of_nat (len demo_frame))
            then take (Z.to_nat 2) (@RandomState_permutation libs_ok 42 (len demo_frame))
            else seq 0 (len demo_frame)) ∧
  NoDup picked ∧
  Forall (λ i, i < len demo_frame)%nat picked ∧
  rows demo_detail = detail_row demo_frame <$> omap (λ i, rows demo_frame !! i) picked ∧
  index demo_detail = omap (λ i, index demo_frame !! i) picked ∧
  series demo_detail "row_id" = index demo_detail ∧
  (NoDup (index demo_frame) → NoDup (index demo_detail)) ∧
  (∀ cols rs, demo_frame = frame_of cols rs →
     index demo_detail = (λ i, Int (Z.of_nat i)) <$> picked ∧ NoDup (index demo_detail)).
Proof.
  apply (@detail_row_ids_distinct libs_ok demo_frame 2 demo_detail).
  vm_compute. reflexivity.
Defined.

Example demo_kept_positions : @kept_positions libs_ok (len demo_frame) 2 = [2; 1]%nat.
Proof. vm_compute. reflexivity. Qed.
